(** * A region quadtree with nearest-neighbour search

    Shallow embedding of [quadtree.py]: the geometry primitives
    ([Point], [Rectangle]), the tree node ([QuadtreeNode]: subdivision,
    insertion with redistribution, the two pruning searches), the tree
    handle ([Quadtree]) and the linear-scan oracle
    ([find_closest_brute_force]).

    Coordinates and distances are binary64 numbers, as Python's [float]:
    [+], [-], [*], [/] and the comparisons are the IEEE 754 operations of
    the primitive type [float], NaN and the infinities included (the
    integer literals of the script are small enough to be the same
    numbers).  [** 2] is computed by the C library's [pow], which IEEE 754
    does not fix and which raises [OverflowError] on overflow: it is a
    parameter [pow2] of the searches, as is [math.sqrt].  Methods that
    mutate [self] return the updated object next to their Python result.
    Recursion that Python bounds only by its call stack ([insert]) takes a
    fuel argument counting the frames still available. *)

From Stdlib Require Import Floats ZArith QArith List Bool Lia.
From Stdlib Require String.
From Stdlib Require Import Permutation.
Import ListNotations.

#[local] Set Warnings "-inexact-float".

Open Scope float_scope.

(** ** Numbers *)

(** Python's [max(0, a, b)]: the first maximal argument, scanning left to
    right and replacing the running maximum only when [item > maximum]. *)
Definition max3 (z a b : float) : float :=
  let m := if z <? a then a else z in
  if m <? b then b else m.

(** ** Outcome of a call *)

(** A call returns a value, exhausts the call stack ([RecursionError]),
    or raises [AttributeError] (a method called on [None]) or
    [OverflowError] (a power out of range). *)
Inductive result (A : Type) : Type :=
| Ok (a : A)
| OutOfFuel
| AttributeError
| OverflowError.

Arguments Ok {A} a.
Arguments OutOfFuel {A}.
Arguments AttributeError {A}.
Arguments OverflowError {A}.

Definition bind {A B : Type} (r : result A) (k : A -> result B) : result B :=
  match r with
  | Ok a => k a
  | OutOfFuel => OutOfFuel
  | AttributeError => AttributeError
  | OverflowError => OverflowError
  end.

Notation "x <- r ;; k" := (bind r (fun x => k))
  (at level 61, r at next level, right associativity).

(** The exception of a call, if any, without its value. *)
Definition status {A : Type} (r : result A) : result unit :=
  _ <- r ;; Ok tt.

(** A [for] loop whose body updates a state and may fail. *)
Fixpoint for_each {S A : Type} (body : S -> A -> result S) (l : list A)
    (s : S) : result S :=
  match l with
  | [] => Ok s
  | a :: l' => s' <- body s a ;; for_each body l' s'
  end.

(** Python's stable [list.sort(key=...)], which compares keys with [<]
    only: an element is placed before the first later element whose key is
    not smaller than its own. *)
Section Sort.

Context {A K : Type} (ltb : K -> K -> bool) (key : A -> K).

Fixpoint sort_insert (a : A) (l : list A) : list A :=
  match l with
  | [] => [a]
  | b :: l' =>
      if ltb (key b) (key a) then b :: sort_insert a l' else a :: l
  end.

Fixpoint sort_by (l : list A) : list A :=
  match l with
  | [] => []
  | a :: l' => sort_insert a (sort_by l')
  end.

End Sort.

(** [False < True] on the keys of [_find_nearest]. *)
Definition bool_ltb (a b : bool) : bool := negb a && b.

(** ** Geometry primitives *)

Module Point.

Record t : Type := mk {
  x : float;
  y : float;
  label : option String.string
}.

End Point.

Module Rectangle.

Record t : Type := mk {
  x : float;
  y : float;
  width : float;
  height : float
}.

(** The constructor stores its four arguments and checks nothing. *)
Definition __init__ (x y width height : float) : result t :=
  Ok (mk x y width height).

Definition distance_sq_to_point (self : t) (point : Point.t) : float :=
  let dx := max3 0 (x self - Point.x point)
                   (Point.x point - (x self + width self)) in
  let dy := max3 0 (y self - Point.y point)
                   (Point.y point - (y self + height self)) in
  dx * dx + dy * dy.

Definition contains (self : t) (point : Point.t) : bool :=
  ((x self <=? Point.x point)
   && (Point.x point <? x self + width self))
  && ((y self <=? Point.y point)
      && (Point.y point <? y self + height self)).

End Rectangle.

(** ** The search accumulator

    The dictionary [{'dist_sq': ..., 'point': ...}] shared by all the calls
    of one search. *)
Record BestFound : Type := mkBest {
  best_dist_sq : float;
  best_point : option Point.t
}.

Section Distance.

(** [x ** 2]. *)
Variable pow2 : float -> result float.

(** [(p.x - q.x)**2 + (p.y - q.y)**2], the expression shared by both
    searches and by the oracle; the left power is computed first. *)
Definition dist_sq (p q : Point.t) : result float :=
  a <- pow2 (Point.x p - Point.x q) ;;
  b <- pow2 (Point.y p - Point.y q) ;;
  Ok (a + b).

(** The two assignments guarded by [if dist_sq < best_found['dist_sq']]:
    a strictly closer point replaces both fields. *)
Definition scan_step (best_found : BestFound) (p : Point.t) (d : float)
    : BestFound :=
  if d <? best_dist_sq best_found
  then mkBest d (Some p)
  else best_found.

(** The loop over the resident points of a node.  It stops where a
    distance cannot be computed, the accumulator staying as the turns
    before left it. *)
Fixpoint scan (query_point : Point.t) (points : list Point.t)
    (best_found : BestFound) : BestFound * result unit :=
  match points with
  | [] => (best_found, Ok tt)
  | p :: points' =>
      match dist_sq p query_point with
      | Ok d => scan query_point points' (scan_step best_found p d)
      | e => (best_found, status e)
      end
  end.

End Distance.

(** ** Tree node *)

(** The four child attributes of a node. *)
Inductive Quadrant : Type := NW | NE | SW | SE.

Module QuadtreeNode.

(** [divided] is [False] and the four child attributes are [None] in an
    [Undivided] node; [subdivide] is the only place that assigns them, all
    at once.  Both kinds of node carry [points]. *)
Inductive t : Type :=
| Undivided (boundary : Rectangle.t) (capacity : Z) (points : list Point.t)
| Divided (boundary : Rectangle.t) (capacity : Z) (points : list Point.t)
    (northwest northeast southwest southeast : t).

Definition boundary (self : t) : Rectangle.t :=
  match self with
  | Undivided b _ _ => b
  | Divided b _ _ _ _ _ _ => b
  end.

Definition capacity (self : t) : Z :=
  match self with
  | Undivided _ c _ => c
  | Divided _ c _ _ _ _ _ => c
  end.

Definition points (self : t) : list Point.t :=
  match self with
  | Undivided _ _ ps => ps
  | Divided _ _ ps _ _ _ _ => ps
  end.

Definition divided (self : t) : bool :=
  match self with
  | Undivided _ _ _ => false
  | Divided _ _ _ _ _ _ _ => true
  end.

(** Assignment to [self.points]. *)
Definition set_points (self : t) (ps : list Point.t) : t :=
  match self with
  | Undivided b c _ => Undivided b c ps
  | Divided b c _ nw ne sw se => Divided b c ps nw ne sw se
  end.

Definition __init__ (boundary : Rectangle.t) (capacity : Z) : result t :=
  Ok (Undivided boundary capacity []).

Definition subdivide (self : t) : result t :=
  let x := Rectangle.x (boundary self) in
  let y := Rectangle.y (boundary self) in
  let w := Rectangle.width (boundary self) / 2 in
  let h := Rectangle.height (boundary self) / 2 in
  nw <- (r <- Rectangle.__init__ x y w h ;; __init__ r (capacity self)) ;;
  ne <- (r <- Rectangle.__init__ (x + w) y w h ;;
         __init__ r (capacity self)) ;;
  sw <- (r <- Rectangle.__init__ x (y + h) w h ;;
         __init__ r (capacity self)) ;;
  se <- (r <- Rectangle.__init__ (x + w) (y + h) w h ;;
         __init__ r (capacity self)) ;;
  Ok (Divided (boundary self) (capacity self) (points self) nw ne sw se).

(** [insert] and [_insert_to_children] call each other; each call uses one
    frame of [fuel].  The result pairs the node after the call with the
    boolean the method returns. *)
Fixpoint insert (fuel : nat) (self : t) (point : Point.t) {struct fuel}
    : result (t * bool) :=
  match fuel with
  | O => OutOfFuel
  | S fuel' =>
      if negb (Rectangle.contains (boundary self) point) then
        Ok (self, false)
      else if (Z.of_nat (List.length (points self)) <? capacity self)%Z
              && negb (divided self) then
        Ok (set_points self (points self ++ [point]), true)
      else
        self' <- (if negb (divided self) then
                    s <- subdivide self ;;
                    s' <- for_each
                            (fun s p =>
                               r <- _insert_to_children fuel' s p ;;
                               Ok (fst r))
                            (points self) s ;;
                    Ok (set_points s' [])
                  else Ok self) ;;
        _insert_to_children fuel' self' point
  end

with _insert_to_children (fuel : nat) (self : t) (point : Point.t)
    {struct fuel} : result (t * bool) :=
  match fuel with
  | O => OutOfFuel
  | S fuel' =>
      match self with
      | Undivided _ _ _ => AttributeError
      | Divided b c ps nw ne sw se =>
          r <- insert fuel' nw point ;;
          if snd r then Ok (Divided b c ps (fst r) ne sw se, true) else
          let nw := fst r in
          r <- insert fuel' ne point ;;
          if snd r then Ok (Divided b c ps nw (fst r) sw se, true) else
          let ne := fst r in
          r <- insert fuel' sw point ;;
          if snd r then Ok (Divided b c ps nw ne (fst r) se, true) else
          let sw := fst r in
          r <- insert fuel' se point ;;
          Ok (Divided b c ps nw ne sw (fst r), snd r)
      end
  end.

(** The object a child attribute refers to. *)
Definition child (d : Quadrant) (nw ne sw se : t) : t :=
  match d with
  | NW => nw
  | NE => ne
  | SW => sw
  | SE => se
  end.

(** The node whose child [d] is left in state [c] by a call on it. *)
Definition set_child (d : Quadrant) (c : t) (self : t) : t :=
  match self with
  | Undivided _ _ _ => self
  | Divided b cap ps nw ne sw se =>
      match d with
      | NW => Divided b cap ps c ne sw se
      | NE => Divided b cap ps nw c sw se
      | SW => Divided b cap ps nw ne c se
      | SE => Divided b cap ps nw ne sw c
      end
  end.

(** The [for child in children] loop of both searches: [call d] is the
    recursive call on the child held by attribute [d]; it yields the child
    after the call, the accumulator after it, and whether it returned.
    The loop stops at the first call that raises. *)
Fixpoint search_children
    (call : Quadrant -> BestFound -> t * (BestFound * result unit))
    (children : list Quadrant) (self : t) (best_found : BestFound)
    : t * (BestFound * result unit) :=
  match children with
  | [] => (self, (best_found, Ok tt))
  | d :: children' =>
      let r := call d best_found in
      let self' := set_child d (fst r) self in
      match snd (snd r) with
      | Ok _ => search_children call children' self' (fst (snd r))
      | e => (self', (fst (snd r), e))
      end
  end.

Section Search.

Variable pow2 : float -> result float.

(** Closest-bounding-box-first search.  The result is the node after the
    call, the accumulator after the call, and whether the call returned or
    raised. *)
Fixpoint query (self : t) (point : Point.t) (best_found : BestFound)
    {struct self} : t * (BestFound * result unit) :=
  if best_dist_sq best_found
     <? Rectangle.distance_sq_to_point (boundary self) point then
    (self, (best_found, Ok tt))
  else
    let s := scan pow2 point (points self) best_found in
    match snd s with
    | Ok _ =>
        match self with
        | Undivided _ _ _ => (self, (fst s, Ok tt))
        | Divided _ _ _ nw ne sw se =>
            let children :=
              sort_by PrimFloat.ltb
                (fun d => Rectangle.distance_sq_to_point
                            (boundary (child d nw ne sw se)) point)
                [NW; NE; SW; SE] in
            search_children
              (fun d => query (child d nw ne sw se) point)
              children self (fst s)
        end
    | e => (self, (fst s, e))
    end.

(** Containing-child-first search. *)
Fixpoint _find_nearest (self : t) (query_point : Point.t)
    (best_found : BestFound) {struct self}
    : t * (BestFound * result unit) :=
  if best_dist_sq best_found
     <? Rectangle.distance_sq_to_point (boundary self) query_point then
    (self, (best_found, Ok tt))
  else
    let s := scan pow2 query_point (points self) best_found in
    match snd s with
    | Ok _ =>
        match self with
        | Undivided _ _ _ => (self, (fst s, Ok tt))
        | Divided _ _ _ nw ne sw se =>
            let children :=
              sort_by bool_ltb
                (fun d => negb (Rectangle.contains
                                  (boundary (child d nw ne sw se))
                                  query_point))
                [NW; NE; SW; SE] in
            search_children
              (fun d => _find_nearest (child d nw ne sw se) query_point)
              children self (fst s)
        end
    | e => (self, (fst s, e))
    end.

End Search.

End QuadtreeNode.

(** ** Tree handle *)

Module Quadtree.

Record t : Type := mk {
  boundary : Rectangle.t;
  root : QuadtreeNode.t
}.

Definition __init__ (boundary : Rectangle.t) (capacity : Z) : result t :=
  root <- QuadtreeNode.__init__ boundary capacity ;;
  Ok (mk boundary root).

Definition insert (fuel : nat) (self : t) (point : Point.t)
    : result (t * bool) :=
  r <- QuadtreeNode.insert fuel (root self) point ;;
  Ok (mk (boundary self) (fst r), snd r).

Section Search.

Variable pow2 : float -> result float.

Definition query (self : t) (point : Point.t) (best_found : BestFound)
    : t * (BestFound * result unit) :=
  let r := QuadtreeNode.query pow2 (root self) point best_found in
  (mk (boundary self) (fst r), snd r).

(** [math.sqrt]. *)
Variable sqrt : float -> float.

(** The result is the tree after the call and what the call returns or
    raises. *)
Definition find_nearest (self : t) (query_point : Point.t)
    : t * result (option Point.t * float) :=
  let best_found := mkBest infinity None in
  let r := QuadtreeNode._find_nearest pow2 (root self) query_point
             best_found in
  (mk (boundary self) (fst r),
   _ <- snd (snd r) ;;
   Ok (best_point (fst (snd r)), sqrt (best_dist_sq (fst (snd r))))).

End Search.

End Quadtree.

(** ** The linear-scan oracle *)

Section Oracle.

Variable pow2 : float -> result float.

Fixpoint brute_force_loop (query_point : Point.t) (all_points : list Point.t)
    (best_p : option Point.t) (min_dist_sq : float)
    : result (option Point.t * float) :=
  match all_points with
  | [] => Ok (best_p, min_dist_sq)
  | p :: all_points' =>
      dist_sq <- dist_sq pow2 p query_point ;;
      if dist_sq <? min_dist_sq
      then brute_force_loop query_point all_points' (Some p) dist_sq
      else brute_force_loop query_point all_points' best_p min_dist_sq
  end.

Definition find_closest_brute_force (query_point : Point.t)
    (all_points : list Point.t) : result (option Point.t * float) :=
  brute_force_loop query_point all_points None infinity.

End Oracle.

(** The set-up of the script: [Quadtree(Rectangle(x, y, width, height),
    capacity)]. *)
Definition construct (x y width height : float) (capacity : Z)
    : result Quadtree.t :=
  boundary <- Rectangle.__init__ x y width height ;;
  Quadtree.__init__ boundary capacity.

(** The set-up loop of the script: [for p in points: qt.insert(p)], the
    booleans being discarded. *)
Definition populate (fuel : nat) (qt : Quadtree.t) (points : list Point.t)
    : result Quadtree.t :=
  for_each (fun qt p => r <- Quadtree.insert fuel qt p ;; Ok (fst r))
           points qt.

(** ** Vocabulary of the specification *)

(** The boundary [subdivide] gives to the child held by attribute [d],
    computed as [subdivide] computes it. *)
Definition quarter (d : Quadrant) (b : Rectangle.t) : Rectangle.t :=
  let x := Rectangle.x b in
  let y := Rectangle.y b in
  let w := Rectangle.width b / 2 in
  let h := Rectangle.height b / 2 in
  match d with
  | NW => Rectangle.mk x y w h
  | NE => Rectangle.mk (x + w) y w h
  | SW => Rectangle.mk x (y + h) w h
  | SE => Rectangle.mk (x + w) (y + h) w h
  end.

(** The children of a node, in attribute order; none for a leaf. *)
Definition children (t : QuadtreeNode.t) : list QuadtreeNode.t :=
  match t with
  | QuadtreeNode.Undivided _ _ _ => []
  | QuadtreeNode.Divided _ _ _ nw ne sw se => [nw; ne; sw; se]
  end.

(** Every point stored in a subtree, residents first. *)
Fixpoint all_points (t : QuadtreeNode.t) : list Point.t :=
  match t with
  | QuadtreeNode.Undivided _ _ ps => ps
  | QuadtreeNode.Divided _ _ ps nw ne sw se =>
      ps ++ all_points nw ++ all_points ne ++ all_points sw ++ all_points se
  end.

(** Every node of a subtree, the root first. *)
Fixpoint nodes (t : QuadtreeNode.t) : list QuadtreeNode.t :=
  match t with
  | QuadtreeNode.Undivided _ _ _ => [t]
  | QuadtreeNode.Divided _ _ _ nw ne sw se =>
      t :: nodes nw ++ nodes ne ++ nodes sw ++ nodes se
  end.

(** Geometric invariant: every point stored in the subtree of a node
    passes the containment test of that node, and the children of a
    divided node have the four boundaries [subdivide] computes. *)
Fixpoint wf (t : QuadtreeNode.t) : Prop :=
  Forall (fun p => Rectangle.contains (QuadtreeNode.boundary t) p = true)
         (all_points t)
  /\ match t with
     | QuadtreeNode.Undivided _ _ _ => True
     | QuadtreeNode.Divided b _ _ nw ne sw se =>
         (QuadtreeNode.boundary nw = quarter NW b /\ wf nw)
         /\ (QuadtreeNode.boundary ne = quarter NE b /\ wf ne)
         /\ (QuadtreeNode.boundary sw = quarter SW b /\ wf sw)
         /\ (QuadtreeNode.boundary se = quarter SE b /\ wf se)
     end.

(** Capacity invariant for capacity [c]: every node has capacity [c], a
    leaf holds at most [c] points and a divided node holds none. *)
Fixpoint cap_ok (c : Z) (t : QuadtreeNode.t) : Prop :=
  match t with
  | QuadtreeNode.Undivided _ c' ps =>
      c' = c /\ (Z.of_nat (List.length ps) <= c)%Z
  | QuadtreeNode.Divided _ c' ps nw ne sw se =>
      c' = c /\ ps = []
      /\ cap_ok c nw /\ cap_ok c ne /\ cap_ok c sw /\ cap_ok c se
  end.

(** What the claims require of a single node. *)
Definition node_ok (n : QuadtreeNode.t) : Prop :=
  (QuadtreeNode.divided n = false
   /\ (Z.of_nat (List.length (QuadtreeNode.points n))
       <= QuadtreeNode.capacity n)%Z)
  \/ (QuadtreeNode.divided n = true /\ QuadtreeNode.points n = []).

(** The points a tree stores. *)
Definition stored (qt : Quadtree.t) : list Point.t :=
  all_points (Quadtree.root qt).

(** [built b c l qt]: [qt] is the state of a tree constructed with
    boundary [b] and capacity [c] after the calls [insert(p)], for the [p]
    of [l] in order, have returned. *)
Inductive built (b : Rectangle.t) (c : Z)
    : list Point.t -> Quadtree.t -> Prop :=
| built_init (qt : Quadtree.t) :
    Quadtree.__init__ b c = Ok qt -> built b c [] qt
| built_insert (l : list Point.t) (qt : Quadtree.t) (fuel : nat)
    (p : Point.t) (qt' : Quadtree.t) (r : bool) :
    built b c l qt ->
    Quadtree.insert fuel qt p = Ok (qt', r) ->
    built b c (l ++ [p]) qt'.

(** The empty accumulator a search starts from. *)
Definition no_best : BestFound := mkBest infinity None.

(** The body of the redistribution loop. *)
Definition move_point (fuel : nat) (s : QuadtreeNode.t) (p : Point.t)
    : result QuadtreeNode.t :=
  r <- QuadtreeNode._insert_to_children fuel s p ;; Ok (fst r).

(** [l'] is [l] with [p] added if [r] and with some points taken away:
    nothing else is added and nothing is doubled. *)
Definition gains (p : Point.t) (r : bool) (l l' : list Point.t) : Prop :=
  exists lost, Permutation (l' ++ lost) (if r then p :: l else l).

(** What a call that returns guarantees, on any node [t] left as [t']
    with boolean [r]: boundary and capacity stay; the stored points are
    the old ones, with the new point if [r], less those the call lost; an
    accepted point is stored and passes the containment test of the node;
    the geometric and the capacity invariants are kept. *)
Definition kid_post (c : Z) (p : Point.t) (t t' : QuadtreeNode.t)
    (r : bool) : Prop :=
  QuadtreeNode.boundary t' = QuadtreeNode.boundary t
  /\ QuadtreeNode.capacity t' = QuadtreeNode.capacity t
  /\ (QuadtreeNode.divided t = true -> QuadtreeNode.divided t' = true)
  /\ gains p r (all_points t) (all_points t')
  /\ (r = true ->
      In p (all_points t')
      /\ Rectangle.contains (QuadtreeNode.boundary t) p = true)
  /\ (wf t -> wf t')
  /\ (cap_ok c t -> cap_ok c t').

Definition insert_post (c : Z) (t : QuadtreeNode.t) (p : Point.t)
    (res : result (QuadtreeNode.t * bool)) : Prop :=
  match res with
  | Ok (t', r) => kid_post c p t t' r
  | OutOfFuel => True
  | AttributeError | OverflowError => False
  end.

(** The same for a call of [_insert_to_children] on a divided node, whose
    own points stay. *)
Definition upd (c : Z) (p : Point.t) (t t' : QuadtreeNode.t) (r : bool)
    : Prop :=
  QuadtreeNode.boundary t' = QuadtreeNode.boundary t
  /\ QuadtreeNode.capacity t' = QuadtreeNode.capacity t
  /\ QuadtreeNode.points t' = QuadtreeNode.points t
  /\ QuadtreeNode.divided t' = true
  /\ gains p r (all_points t) (all_points t')
  /\ (r = true -> In p (all_points t'))
  /\ (Rectangle.contains (QuadtreeNode.boundary t) p = true ->
      wf t -> wf t')
  /\ (Forall (cap_ok c) (children t) -> Forall (cap_ok c) (children t')).

Definition children_post (c : Z) (t : QuadtreeNode.t) (p : Point.t)
    (res : result (QuadtreeNode.t * bool)) : Prop :=
  match res with
  | Ok (t', r) => upd c p t t' r
  | OutOfFuel => True
  | AttributeError | OverflowError => False
  end.

(** The same for the redistribution loop over the points [l]: the
    children end up with points of [l] only, none doubled. *)
Definition loop_post (c : Z) (s : QuadtreeNode.t) (l : list Point.t)
    (res : result QuadtreeNode.t) : Prop :=
  match res with
  | Ok s' =>
      QuadtreeNode.boundary s' = QuadtreeNode.boundary s
      /\ QuadtreeNode.capacity s' = QuadtreeNode.capacity s
      /\ QuadtreeNode.points s' = QuadtreeNode.points s
      /\ QuadtreeNode.divided s' = true
      /\ (exists lost,
             Permutation (all_points s' ++ lost) (l ++ all_points s))
      /\ (Forall (fun p => Rectangle.contains (QuadtreeNode.boundary s) p
                           = true) l ->
          wf s -> wf s')
      /\ (Forall (cap_ok c) (children s) -> Forall (cap_ok c) (children s'))
  | OutOfFuel => True
  | AttributeError | OverflowError => False
  end.

(** ** A small tree

    The square of side 2 with capacity 1, after [insert] of [(0.5, 0.5)],
    of [(5, 5)] (outside, rejected) and of [(1.5, 1.5)] (which splits the
    root). *)
Definition sample_b : Rectangle.t := Rectangle.mk 0 0 2 2.
Definition sample_a : Point.t := Point.mk 0.5 0.5 None.
Definition sample_z : Point.t := Point.mk 1.5 1.5 None.
Definition sample_out : Point.t := Point.mk 5 5 None.
Definition sample_on_line : Point.t := Point.mk 1 0.5 None.
Definition sample_points : list Point.t := [sample_a; sample_out; sample_z].

Definition sample_root : QuadtreeNode.t :=
  QuadtreeNode.Divided sample_b 1 []
    (QuadtreeNode.Undivided (quarter NW sample_b) 1 [sample_a])
    (QuadtreeNode.Undivided (quarter NE sample_b) 1 [])
    (QuadtreeNode.Undivided (quarter SW sample_b) 1 [])
    (QuadtreeNode.Undivided (quarter SE sample_b) 1 [sample_z]).

Definition sample_qt : Quadtree.t := Quadtree.mk sample_b sample_root.

(** ** A correctly rounded power

    One [x ** 2] a platform may provide: the product [x * x] as IEEE 754
    rounds it, with [OverflowError] where a finite [x] overflows. *)
Definition pow2_rounded (x : float) : result float :=
  let y := x * x in
  if is_infinity y && negb (is_infinity x) then OverflowError else Ok y.

(** ** The rational a float stands for *)

Definition SF2Q (f : spec_float) : Q :=
  match f with
  | S754_finite s m e =>
      ((if s then -1 else 1) * inject_Z (Zpos m) * 2 ^ e)%Q
  | _ => 0%Q
  end.

(** The value of a finite float; [0] stands in for the others. *)
Definition exact (x : float) : Q := SF2Q (Prim2SF x).

(** The squared Euclidean distance of two points with finite coordinates,
    without rounding. *)
Definition exact_dist_sq (p q : Point.t) : Q :=
  ((exact (Point.x p) - exact (Point.x q)) ^ 2
   + (exact (Point.y p) - exact (Point.y q)) ^ 2)%Q.

(** ** Inputs on which rounding shows *)

(** A rectangle whose right edge [0.1 + 1.3] is rounded up, while the
    right edge [(0.1 + 0.65) + 0.65] of its eastern quarters is not:
    [gap_p] passes the test of the rectangle and of none of the quarters.
    [gap_qt1] is the tree of capacity 1 after [insert(gap_p)], [gap_qt2]
    after [insert(gap_z)] as well. *)
Definition gap_b : Rectangle.t := Rectangle.mk 0.1 0 1.3 1.
Definition gap_p : Point.t := Point.mk 1.4 0.25 None.
Definition gap_z : Point.t := Point.mk 0.5 0.5 None.

Definition gap_qt0 : Quadtree.t :=
  Quadtree.mk gap_b (QuadtreeNode.Undivided gap_b 1 []).

Definition gap_qt1 : Quadtree.t :=
  Quadtree.mk gap_b (QuadtreeNode.Undivided gap_b 1 [gap_p]).

Definition gap_split (ps : list Point.t) (sw : list Point.t)
    : QuadtreeNode.t :=
  QuadtreeNode.Divided gap_b 1 ps
    (QuadtreeNode.Undivided (quarter NW gap_b) 1 [])
    (QuadtreeNode.Undivided (quarter NE gap_b) 1 [])
    (QuadtreeNode.Undivided (quarter SW gap_b) 1 sw)
    (QuadtreeNode.Undivided (quarter SE gap_b) 1 []).

Definition gap_qt2 : Quadtree.t := Quadtree.mk gap_b (gap_split [] [gap_z]).

(** The unit square with capacity 1 holding its centre. *)
Definition unit_b : Rectangle.t := Rectangle.mk 0 0 1 1.
Definition unit_p : Point.t := Point.mk 0.5 0.5 None.

Definition unit_qt0 : Quadtree.t :=
  Quadtree.mk unit_b (QuadtreeNode.Undivided unit_b 1 []).

Definition unit_qt1 : Quadtree.t :=
  Quadtree.mk unit_b (QuadtreeNode.Undivided unit_b 1 [unit_p]).

(** A rectangle whose left edge has a square that is not a float. *)
Definition over_r : Rectangle.t := Rectangle.mk 400.82830547548156 0 1 1.
Definition over_p : Point.t := Point.mk 400.82830547548156 0.5 None.
Definition over_q : Point.t := Point.mk 0 0.5 None.
Definition over_far : Point.t := Point.mk 1e200 0.5 None.

(** A square so large that squared distances across it overflow, with
    one point in its north-west and one in its south-east quarter, and a
    query point in the north-east quarter just above the second. *)
Definition far_b : Rectangle.t := Rectangle.mk 0 0 1e160 1e160.
Definition far_a : Point.t := Point.mk 1e159 1e159 None.
Definition far_z : Point.t := Point.mk 6e159 5e159 None.
Definition far_q : Point.t := Point.mk 6e159 (5e159 - 1e150) None.

Definition far_root : QuadtreeNode.t :=
  QuadtreeNode.Divided far_b 1 []
    (QuadtreeNode.Undivided (quarter NW far_b) 1 [far_a])
    (QuadtreeNode.Undivided (quarter NE far_b) 1 [])
    (QuadtreeNode.Undivided (quarter SW far_b) 1 [])
    (QuadtreeNode.Undivided (quarter SE far_b) 1 [far_z]).

Definition far_qt : Quadtree.t := Quadtree.mk far_b far_root.

(** A point on the horizontal split line of the small tree. *)
Definition sample_south : Point.t := Point.mk 0.5 1 None.

(** The square of side 2 with capacity 0, fresh and after
    [insert(sample_a)] has returned. *)
Definition zero_qt0 : Quadtree.t :=
  Quadtree.mk sample_b (QuadtreeNode.Undivided sample_b 0 []).

Definition zero_qt1 : Quadtree.t :=
  Eval vm_compute in
    match Quadtree.insert 200 zero_qt0 sample_a with
    | Ok (qt, _) => qt
    | _ => zero_qt0
    end.

(** ** Vocabulary of the further properties *)

(** What the geometric invariant says of one node. *)
Definition node_geometry (n : QuadtreeNode.t) : Prop :=
  Forall (fun p => Rectangle.contains (QuadtreeNode.boundary n) p = true)
         (all_points n)
  /\ match n with
     | QuadtreeNode.Undivided _ _ _ => True
     | QuadtreeNode.Divided b _ _ nw ne sw se =>
         QuadtreeNode.boundary nw = quarter NW b
         /\ QuadtreeNode.boundary ne = quarter NE b
         /\ QuadtreeNode.boundary sw = quarter SW b
         /\ QuadtreeNode.boundary se = quarter SE b
     end.

(** Every node of the subtree has capacity [c]. *)
Definition cap_all (c : Z) (t : QuadtreeNode.t) : Prop :=
  Forall (fun n => QuadtreeNode.capacity n = c) (nodes t).

(** [best'] is [best], or a point of [l] with its squared distance to [q]
    as computed, strictly closer than [best]. *)
Definition refines (pow2 : float -> result float) (q : Point.t)
    (l : list Point.t) (best best' : BestFound) : Prop :=
  best' = best
  \/ exists p d,
       In p l
       /\ dist_sq pow2 p q = Ok d
       /\ best' = mkBest d (Some p)
       /\ (d <? best_dist_sq best) = true.

(** [e] is a return, or the exception of the distance from [q] to a point
    of [l]. *)
Definition raised (pow2 : float -> result float) (q : Point.t)
    (l : list Point.t) (e : result unit) : Prop :=
  e = Ok tt
  \/ (e <> Ok tt /\ exists p, In p l /\ status (dist_sq pow2 p q) = e).

(** What the loop of the oracle has established after the points [seen]:
    the running minimum is [infinity] with no point, or the computed
    distance of a point of [seen]; and no point of [seen] is strictly
    closer. *)
Definition oracle_inv (pow2 : float -> result float) (q : Point.t)
    (seen : list Point.t) (best_p : option Point.t) (m : float) : Prop :=
  match best_p with
  | None => m = infinity
  | Some p =>
      In p seen /\ dist_sq pow2 p q = Ok m /\ (m <? infinity) = true
  end
  /\ forall p', In p' seen ->
       exists d', dist_sq pow2 p' q = Ok d' /\ (d' <? m) = false.

Definition oracle_post (pow2 : float -> result float) (q : Point.t)
    (l : list Point.t) (res : result (option Point.t * float)) : Prop :=
  match res with
  | Ok (best_p, m) => oracle_inv pow2 q l best_p m
  | e => exists p, In p l /\ status (dist_sq pow2 p q) = status e
  end.

(** * Properties *)

(** ** Insertion: unfolding equations *)

Lemma subdivide_eq (self : QuadtreeNode.t) :
  QuadtreeNode.subdivide self =
  let b := QuadtreeNode.boundary self in
  let c := QuadtreeNode.capacity self in
  Ok (QuadtreeNode.Divided b c (QuadtreeNode.points self)
        (QuadtreeNode.Undivided (quarter NW b) c [])
        (QuadtreeNode.Undivided (quarter NE b) c [])
        (QuadtreeNode.Undivided (quarter SW b) c [])
        (QuadtreeNode.Undivided (quarter SE b) c [])).
Proof. reflexivity. Qed.

Lemma insert_S (fuel : nat) (self : QuadtreeNode.t) (point : Point.t) :
  QuadtreeNode.insert (S fuel) self point =
  if negb (Rectangle.contains (QuadtreeNode.boundary self) point) then
    Ok (self, false)
  else if (Z.of_nat (List.length (QuadtreeNode.points self))
           <? QuadtreeNode.capacity self)%Z
          && negb (QuadtreeNode.divided self) then
    Ok (QuadtreeNode.set_points self (QuadtreeNode.points self ++ [point]),
        true)
  else
    self' <- (if negb (QuadtreeNode.divided self) then
                s <- QuadtreeNode.subdivide self ;;
                s' <- for_each (move_point fuel)
                        (QuadtreeNode.points self) s ;;
                Ok (QuadtreeNode.set_points s' [])
              else Ok self) ;;
    QuadtreeNode._insert_to_children fuel self' point.
Proof. reflexivity. Qed.

Lemma insert_to_children_S (fuel : nat) b c ps nw ne sw se
    (point : Point.t) :
  QuadtreeNode._insert_to_children (S fuel)
    (QuadtreeNode.Divided b c ps nw ne sw se) point =
  (r <- QuadtreeNode.insert fuel nw point ;;
   if snd r then Ok (QuadtreeNode.Divided b c ps (fst r) ne sw se, true) else
   let nw := fst r in
   r <- QuadtreeNode.insert fuel ne point ;;
   if snd r then Ok (QuadtreeNode.Divided b c ps nw (fst r) sw se, true) else
   let ne := fst r in
   r <- QuadtreeNode.insert fuel sw point ;;
   if snd r then Ok (QuadtreeNode.Divided b c ps nw ne (fst r) se, true) else
   let sw := fst r in
   r <- QuadtreeNode.insert fuel se point ;;
   Ok (QuadtreeNode.Divided b c ps nw ne sw (fst r), snd r)).
Proof. reflexivity. Qed.

Lemma insert_outside (fuel : nat) (t : QuadtreeNode.t) (p : Point.t) :
  Rectangle.contains (QuadtreeNode.boundary t) p = false ->
  QuadtreeNode.insert (S fuel) t p = Ok (t, false).
Proof. intros H. rewrite insert_S, H. reflexivity. Qed.

Lemma bind_Ok {A B : Type} (r : result A) (k : A -> result B) (b : B) :
  bind r k = Ok b -> exists a, r = Ok a /\ k a = Ok b.
Proof. destruct r; cbn; [eauto | discriminate ..]. Qed.

(** ** Bookkeeping of stored points *)

Lemma gains_refl (p : Point.t) (l : list Point.t) : gains p false l l.
Proof. exists []. rewrite app_nil_r. reflexivity. Qed.

Lemma gains_trans (p : Point.t) (r : bool) (l0 l1 l2 : list Point.t) :
  gains p false l0 l1 -> gains p r l1 l2 -> gains p r l0 l2.
Proof.
  intros [L1 H1] [L2 H2]. exists (L2 ++ L1).
  rewrite app_assoc, H2. destruct r; cbn [app]; rewrite H1; reflexivity.
Qed.

Lemma gains_ctx (p : Point.t) (r : bool) (x y a a' : list Point.t) :
  gains p r a a' -> gains p r (x ++ a ++ y) (x ++ a' ++ y).
Proof.
  intros [L H]. exists L.
  transitivity (x ++ (a' ++ L) ++ y).
  - rewrite <- !app_assoc. apply Permutation_app_head.
    rewrite !app_assoc.
    rewrite <- (app_assoc a' y L), (Permutation_app_comm y L).
    rewrite !app_assoc. reflexivity.
  - rewrite H. destruct r; [|reflexivity].
    cbn [app]. symmetry. apply Permutation_middle.
Qed.

Lemma gains_incl (p : Point.t) (r : bool) (l l' : list Point.t) :
  gains p r l l' -> incl l' (p :: l).
Proof.
  intros [L H] a Ha.
  assert (Hin : In a (if r then p :: l else l)).
  { apply (Permutation_in a H). apply in_or_app. left. exact Ha. }
  destruct r; [exact Hin | right; exact Hin].
Qed.

Lemma gains_incl_false (p : Point.t) (l l' : list Point.t) :
  gains p false l l' -> incl l' l.
Proof.
  intros [L H] a Ha.
  apply (Permutation_in a H). apply in_or_app. left. exact Ha.
Qed.

Lemma gains_length (p : Point.t) (r : bool) (l l' : list Point.t) :
  gains p r l l' ->
  (List.length l' <= List.length l + (if r then 1 else 0))%nat.
Proof.
  intros [L H]. apply Permutation_length in H.
  rewrite length_app in H. destruct r; cbn [List.length] in H; lia.
Qed.

(** ** Insertion keeps the invariants *)

Lemma kid_post_refl (c : Z) (p : Point.t) (t : QuadtreeNode.t) :
  kid_post c p t t false.
Proof.
  repeat split; auto; try discriminate. apply gains_refl.
Qed.

Lemma upd_refl (c : Z) (p : Point.t) (t : QuadtreeNode.t) :
  QuadtreeNode.divided t = true -> upd c p t t false.
Proof.
  intros Hd. repeat split; auto; try discriminate. apply gains_refl.
Qed.

Lemma upd_trans (c : Z) (p : Point.t) (r : bool)
    (t0 t1 t2 : QuadtreeNode.t) :
  upd c p t0 t1 false -> upd c p t1 t2 r -> upd c p t0 t2 r.
Proof.
  intros (B1 & K1 & P1 & D1 & G1 & _ & W1 & C1)
         (B2 & K2 & P2 & D2 & G2 & I2 & W2 & C2).
  repeat split; try congruence; auto.
  - eapply gains_trans; eassumption.
  - intros Hp Hw. apply W2; [rewrite B1; exact Hp | auto].
Qed.

Lemma wf_points (t : QuadtreeNode.t) :
  wf t ->
  Forall (fun p => Rectangle.contains (QuadtreeNode.boundary t) p = true)
         (all_points t).
Proof. destruct t; intros [H _]; exact H. Qed.

Lemma upd_child (c : Z) (p : Point.t) (r : bool) (d : Quadrant)
    b k ps nw ne sw se (ch' : QuadtreeNode.t) :
  kid_post c p (QuadtreeNode.child d nw ne sw se) ch' r ->
  upd c p (QuadtreeNode.Divided b k ps nw ne sw se)
    (QuadtreeNode.set_child d ch' (QuadtreeNode.Divided b k ps nw ne sw se))
    r.
Proof.
  intros (B & K & D & G & I & W & C).
  assert (HG : gains p r
                 (all_points (QuadtreeNode.Divided b k ps nw ne sw se))
                 (all_points
                    (QuadtreeNode.set_child d ch'
                       (QuadtreeNode.Divided b k ps nw ne sw se)))).
  { destruct d; cbn [QuadtreeNode.child QuadtreeNode.set_child all_points]
      in *.
    - apply (gains_ctx p r ps _ _ _ G).
    - rewrite !(app_assoc ps). apply (gains_ctx p r _ _ _ _ G).
    - rewrite !(app_assoc ps), !(app_assoc (ps ++ _)).
      apply (gains_ctx p r _ _ _ _ G).
    - rewrite !(app_assoc ps), !(app_assoc (ps ++ _)),
        !(app_assoc ((ps ++ _) ++ _)).
      rewrite <- (app_nil_r (all_points se)), <- (app_nil_r (all_points ch')).
      apply (gains_ctx p r _ _ _ _ G). }
  split; [destruct d; reflexivity|].
  split; [destruct d; reflexivity|].
  split; [destruct d; reflexivity|].
  split; [destruct d; reflexivity|].
  split; [exact HG|].
  split.
  { intros Hr. destruct (I Hr) as [Hin _].
    destruct d; cbn [QuadtreeNode.child QuadtreeNode.set_child all_points]
      in *; rewrite !in_app_iff; tauto. }
  split.
  { intros Hp Hw.
    assert (HF : Forall (fun q => Rectangle.contains b q = true)
                   (all_points
                      (QuadtreeNode.set_child d ch'
                         (QuadtreeNode.Divided b k ps nw ne sw se)))).
    { apply Forall_forall. intros q Hq.
      apply (gains_incl _ _ _ _ HG) in Hq. destruct Hq as [<- | Hq].
      - exact Hp.
      - pose proof (wf_points _ Hw) as HF.
        rewrite Forall_forall in HF. apply HF, Hq. }
    destruct Hw as (_ & (B1 & W1) & (B2 & W2) & (B3 & W3) & (B4 & W4)).
    destruct d; cbn [QuadtreeNode.child QuadtreeNode.set_child] in *;
      (split; [exact HF|]); repeat split; auto; congruence. }
  intros HF.
  destruct d; cbn [QuadtreeNode.child QuadtreeNode.set_child children] in *;
    repeat match goal with
           | H : Forall _ (_ :: _) |- _ => inversion H; clear H; subst
           end;
    repeat constructor; auto.
Qed.

Lemma upd_kid_post (c : Z) (p : Point.t) (r : bool)
    (t t' : QuadtreeNode.t) :
  QuadtreeNode.divided t = true ->
  Rectangle.contains (QuadtreeNode.boundary t) p = true ->
  upd c p t t' r -> kid_post c p t t' r.
Proof.
  intros Hd Hp (B & K & P & D & G & I & W & C).
  repeat split; auto.
  intros Hc.
  destruct t as [? ? ? | b k ps nw ne sw se]; [discriminate|].
  destruct t' as [? ? ? | b' k' ps' nw' ne' sw' se']; [discriminate|].
  cbn [QuadtreeNode.capacity QuadtreeNode.points children cap_ok] in *.
  destruct Hc as (-> & -> & C1 & C2 & C3 & C4).
  assert (F0 : Forall (cap_ok c) [nw; ne; sw; se])
    by (repeat constructor; assumption).
  specialize (C F0).
  repeat match goal with
         | H : Forall _ (_ :: _) |- _ => inversion H; clear H; subst
         end.
  repeat split; auto.
Qed.

Lemma children_post_step (fuel : nat) (c : Z) :
  (forall t p, insert_post c t p (QuadtreeNode.insert fuel t p)) ->
  forall t p,
    QuadtreeNode.divided t = true ->
    children_post c t p (QuadtreeNode._insert_to_children (S fuel) t p).
Proof.
  intros IH [b k ps | b k ps nw ne sw se] p Hdiv; [discriminate|].
  rewrite insert_to_children_S.
  pose proof (IH nw p) as H1. unfold insert_post in H1.
  destruct (QuadtreeNode.insert fuel nw p) as [[nw' r1]| | |];
    cbn [bind fst snd children_post]; try exact H1.
  pose proof (upd_child c p r1 NW b k ps nw ne sw se nw' H1) as U1.
  cbn [QuadtreeNode.set_child] in U1.
  destruct r1; [exact U1|].
  pose proof (IH ne p) as H2. unfold insert_post in H2.
  destruct (QuadtreeNode.insert fuel ne p) as [[ne' r2]| | |];
    cbn [bind fst snd children_post]; try exact H2.
  pose proof (upd_child c p r2 NE b k ps nw' ne sw se ne' H2) as U2.
  cbn [QuadtreeNode.set_child] in U2.
  pose proof (upd_trans _ _ _ _ _ _ U1 U2) as U12.
  destruct r2; [exact U12|].
  pose proof (IH sw p) as H3. unfold insert_post in H3.
  destruct (QuadtreeNode.insert fuel sw p) as [[sw' r3]| | |];
    cbn [bind fst snd children_post]; try exact H3.
  pose proof (upd_child c p r3 SW b k ps nw' ne' sw se sw' H3) as U3.
  cbn [QuadtreeNode.set_child] in U3.
  pose proof (upd_trans _ _ _ _ _ _ U12 U3) as U123.
  destruct r3; [exact U123|].
  pose proof (IH se p) as H4. unfold insert_post in H4.
  destruct (QuadtreeNode.insert fuel se p) as [[se' r4]| | |];
    cbn [bind fst snd children_post]; try exact H4.
  pose proof (upd_child c p r4 SE b k ps nw' ne' sw' se se' H4) as U4.
  cbn [QuadtreeNode.set_child] in U4.
  exact (upd_trans _ _ _ _ _ _ U123 U4).
Qed.

Lemma loop_post_step (fuel : nat) (c : Z) :
  (forall t p,
      QuadtreeNode.divided t = true ->
      children_post c t p (QuadtreeNode._insert_to_children fuel t p)) ->
  forall l s,
    QuadtreeNode.divided s = true ->
    loop_post c s l (for_each (move_point fuel) l s).
Proof.
  intros IH l. induction l as [|p l IHl]; intros s Hdiv.
  - cbn. repeat split; auto. exists []. rewrite app_nil_r. reflexivity.
  - cbn [for_each]. unfold move_point at 1.
    specialize (IH s p Hdiv). unfold children_post in IH.
    destruct (QuadtreeNode._insert_to_children fuel s p) as [[s1 r]| | |];
      cbn [bind fst loop_post]; try exact IH.
    destruct IH as (B1 & K1 & P1 & D1 & [L1 G1] & _ & W1 & C1).
    specialize (IHl s1 D1). unfold loop_post in IHl.
    destruct (for_each (move_point fuel) l s1) as [s'| | |];
      cbn [loop_post]; try exact IHl.
    destruct IHl as (B2 & K2 & P2 & D2 & [L2 G2] & W2 & C2).
    repeat split; try congruence; auto.
    + destruct r.
      * exists (L2 ++ L1). rewrite app_assoc, G2, <- app_assoc, G1.
        cbn [app]. symmetry. apply Permutation_middle.
      * exists (p :: L2 ++ L1).
        rewrite <- Permutation_middle. cbn [app]. constructor.
        rewrite app_assoc, G2, <- app_assoc, G1. reflexivity.
    + intros HF Hw. inversion HF as [|? ? Hp HF']; subst.
      apply W2; [rewrite B1; exact HF' | auto].
Qed.

Lemma cap_ok_nonneg (c : Z) (t : QuadtreeNode.t) : cap_ok c t -> (0 <= c)%Z.
Proof.
  induction t as [b k ps | b k ps nw IHnw ne _ sw _ se _]; cbn [cap_ok].
  - lia.
  - intros (_ & _ & H & _). auto.
Qed.

Lemma wf_set_points (t : QuadtreeNode.t) :
  wf t -> wf (QuadtreeNode.set_points t []).
Proof.
  destruct t as [b k ps | b k ps nw ne sw se];
    cbn [wf QuadtreeNode.set_points QuadtreeNode.boundary all_points].
  - intros _. split; [constructor | exact I].
  - intros [HF H]. split; [|exact H].
    apply Forall_app in HF. cbn [app]. tauto.
Qed.

Theorem insert_invariant (c : Z) (fuel : nat) :
  (forall t p, insert_post c t p (QuadtreeNode.insert fuel t p))
  /\ (forall t p,
         QuadtreeNode.divided t = true ->
         children_post c t p (QuadtreeNode._insert_to_children fuel t p)).
Proof.
  induction fuel as [|fuel [IHi IHc]].
  { split; intros; exact I. }
  split; [|apply children_post_step; exact IHi].
  intros t p. rewrite insert_S.
  destruct (Rectangle.contains (QuadtreeNode.boundary t) p) eqn:Hp;
    cbn [negb].
  2:{ cbn [insert_post]. apply kid_post_refl. }
  destruct t as [b k ps | b k ps nw ne sw se];
    cbn [QuadtreeNode.divided QuadtreeNode.points QuadtreeNode.capacity
         QuadtreeNode.boundary negb] in *;
    rewrite ?andb_true_r, ?andb_false_r.
  - (* a leaf *)
    destruct (Z.of_nat (List.length ps) <? k)%Z eqn:Hlen.
    + (* spare capacity: append *)
      apply Z.ltb_lt in Hlen.
      cbn [insert_post QuadtreeNode.set_points].
      unfold kid_post.
      cbn [wf all_points QuadtreeNode.boundary QuadtreeNode.capacity
           QuadtreeNode.divided cap_ok].
      repeat split; auto.
      * exists []. rewrite app_nil_r. symmetry.
        apply Permutation_cons_append.
      * apply in_or_app. right. left. reflexivity.
      * apply Forall_app. split; [tauto|]. repeat constructor. exact Hp.
      * tauto.
      * rewrite length_app. cbn [List.length]. lia.
    + (* full: subdivide, redistribute, delegate *)
      apply Z.ltb_ge in Hlen.
      rewrite subdivide_eq.
      cbn [bind QuadtreeNode.boundary QuadtreeNode.capacity
           QuadtreeNode.points].
      set (s := QuadtreeNode.Divided b k ps _ _ _ _).
      pose proof (loop_post_step fuel c IHc ps s eq_refl) as HL.
      unfold loop_post in HL.
      destruct (for_each (move_point fuel) ps s) as [s'| | |];
        cbn [bind insert_post]; try exact HL.
      destruct HL as (B1 & K1 & P1 & D1 & [L1 G1] & W1 & C1).
      destruct s' as [? ? ? | b' k' ps' nw' ne' sw' se']; [discriminate|].
      cbn [QuadtreeNode.boundary QuadtreeNode.capacity QuadtreeNode.points
           QuadtreeNode.set_points] in *.
      subst b' k' ps'.
      pose proof (IHc (QuadtreeNode.Divided b k [] nw' ne' sw' se') p
                    eq_refl) as HC.
      unfold children_post in HC.
      destruct (QuadtreeNode._insert_to_children fuel _ p) as [[t' r]| | |];
        cbn [insert_post]; try exact HC.
      destruct HC as (B3 & K3 & P3 & D3 & G3 & I3 & W3 & C3).
      subst s.
      cbn [QuadtreeNode.boundary QuadtreeNode.capacity QuadtreeNode.points
           QuadtreeNode.divided all_points children app] in *.
      rewrite app_nil_r in G1. rewrite <- app_assoc in G1.
      apply Permutation_app_inv_l in G1.
      unfold kid_post.
      cbn [QuadtreeNode.boundary QuadtreeNode.capacity QuadtreeNode.divided
           all_points].
      repeat split; auto.
      * apply (gains_trans p r ps
                 (all_points nw' ++ all_points ne' ++ all_points sw'
                  ++ all_points se'));
          [exists L1; exact G1 | exact G3].
      * intros Hw. apply (W3 Hp).
        apply (wf_set_points (QuadtreeNode.Divided b k ps nw' ne' sw' se')).
        apply W1; [exact (wf_points _ Hw)|].
        cbn [wf all_points QuadtreeNode.boundary app].
        rewrite app_nil_r.
        repeat split; auto; try constructor.
        exact (wf_points _ Hw).
      * intros Hc.
        destruct t' as [? ? ? | b3 k3 ps3 nw3 ne3 sw3 se3]; [discriminate|].
        cbn [QuadtreeNode.capacity QuadtreeNode.points children cap_ok] in *.
        destruct Hc as [-> Hle].
        assert (Hk : (0 <= c)%Z) by lia.
        assert (F0 : Forall (cap_ok c)
                       [QuadtreeNode.Undivided (quarter NW b) c [];
                        QuadtreeNode.Undivided (quarter NE b) c [];
                        QuadtreeNode.Undivided (quarter SW b) c [];
                        QuadtreeNode.Undivided (quarter SE b) c []]).
        { repeat constructor; cbn [List.length]; lia. }
        specialize (C3 (C1 F0)).
        repeat match goal with
               | H : Forall _ (_ :: _) |- _ => inversion H; clear H; subst
               end.
        repeat split; auto.
  - (* already divided: delegate *)
    cbn [bind].
    pose proof (IHc (QuadtreeNode.Divided b k ps nw ne sw se) p eq_refl)
      as HC.
    unfold children_post in HC.
    destruct (QuadtreeNode._insert_to_children fuel _ p) as [[t' r]| | |];
      cbn [insert_post]; try exact HC.
    apply upd_kid_post; auto.
Qed.

(** ** Reachable trees *)

Lemma cap_ok_nodes (c : Z) (t : QuadtreeNode.t) :
  cap_ok c t -> Forall node_ok (nodes t).
Proof.
  induction t as [b k ps | b k ps nw IHnw ne IHne sw IHsw se IHse];
    cbn [nodes cap_ok].
  - intros [-> Hle]. constructor; [|constructor].
    left. cbn. split; [reflexivity | exact Hle].
  - intros (-> & -> & C1 & C2 & C3 & C4). constructor.
    + right. cbn. split; reflexivity.
    + repeat (apply Forall_app; split); auto.
Qed.

Lemma cap_ok_capacity (c : Z) (t : QuadtreeNode.t) :
  cap_ok c t -> Forall (fun n => QuadtreeNode.capacity n = c) (nodes t).
Proof.
  induction t as [b k ps | b k ps nw IHnw ne IHne sw IHsw se IHse];
    cbn [nodes cap_ok].
  - intros [-> _]. repeat constructor.
  - intros (-> & _ & C1 & C2 & C3 & C4). constructor; [reflexivity|].
    repeat (apply Forall_app; split); auto.
Qed.

Lemma filter_snoc {A : Type} (f : A -> bool) (l : list A) (a : A) :
  filter f (l ++ [a]) = if f a then filter f l ++ [a] else filter f l.
Proof.
  rewrite filter_app. cbn [filter].
  destruct (f a); [reflexivity | apply app_nil_r].
Qed.

(** What holds of every reachable tree: the handle and the root keep the
    boundary and the capacity of the construction, the geometric
    invariant holds, the stored points are among the inserted points that
    pass the containment test of the root, none doubled, and the capacity
    invariant holds when the capacity is not negative. *)
Lemma built_invariant (b : Rectangle.t) (c : Z) (l : list Point.t)
    (qt : Quadtree.t) :
  built b c l qt ->
  Quadtree.boundary qt = b
  /\ QuadtreeNode.boundary (Quadtree.root qt) = b
  /\ QuadtreeNode.capacity (Quadtree.root qt) = c
  /\ wf (Quadtree.root qt)
  /\ (exists lost,
         Permutation (stored qt ++ lost) (filter (Rectangle.contains b) l))
  /\ ((0 <= c)%Z -> cap_ok c (Quadtree.root qt)).
Proof.
  unfold stored.
  induction 1 as [qt Hinit | l qt fuel p qt' r _ IH Hins].
  - injection Hinit as <-. cbn. repeat split; auto; try constructor.
    exists []. constructor.
  - destruct IH as (B1 & B2 & K & W & [L0 Perm] & Cap).
    unfold Quadtree.insert in Hins.
    destruct (insert_invariant c fuel) as [Hpost _].
    specialize (Hpost (Quadtree.root qt) p). unfold insert_post in Hpost.
    destruct (QuadtreeNode.insert fuel (Quadtree.root qt) p)
      as [[t' r']| | |]; [|discriminate ..].
    cbn [bind fst snd] in Hins. injection Hins as <- <-.
    destruct Hpost as (B' & K' & _ & [L1 G] & I & W' & Cap').
    cbn [Quadtree.boundary Quadtree.root].
    repeat split; try congruence; auto.
    rewrite filter_snoc.
    destruct r'.
    + destruct (I eq_refl) as [_ Hp]. rewrite B2 in Hp. rewrite Hp.
      exists (L1 ++ L0).
      rewrite app_assoc, G. cbn [app]. rewrite Perm.
      apply Permutation_cons_append.
    + destruct (Rectangle.contains b p).
      * exists (p :: L1 ++ L0).
        rewrite <- Permutation_middle, app_assoc, G, Perm.
        apply Permutation_cons_append.
      * exists (L1 ++ L0). rewrite app_assoc, G. exact Perm.
Qed.

(** ** The set-up loop builds reachable trees *)

Lemma built_populate (fuel : nat) (b : Rectangle.t) (c : Z)
    (l : list Point.t) :
  forall (l0 : list Point.t) (qt0 qt : Quadtree.t),
    built b c l0 qt0 ->
    populate fuel qt0 l = Ok qt ->
    built b c (l0 ++ l) qt.
Proof.
  unfold populate.
  induction l as [|p l IH]; intros l0 qt0 qt Hb Hpop.
  - injection Hpop as <-. rewrite app_nil_r. exact Hb.
  - cbn [for_each] in Hpop.
    apply bind_Ok in Hpop. destruct Hpop as (qt1 & Hstep & Hrest).
    apply bind_Ok in Hstep. destruct Hstep as ([qt1' r] & Hins & Hret).
    cbn [fst] in Hret. injection Hret as ->.
    change (p :: l) with ([p] ++ l). rewrite app_assoc.
    apply (IH _ qt1); [|exact Hrest].
    exact (built_insert b c l0 qt0 fuel p qt1 r Hb Hins).
Qed.

Lemma sample_built : built sample_b 1 sample_points sample_qt.
Proof.
  apply (built_populate 5 sample_b 1 sample_points []
           (Quadtree.mk sample_b (QuadtreeNode.Undivided sample_b 1 []))).
  - apply built_init. reflexivity.
  - vm_compute. reflexivity.
Qed.

(** ** The two searches leave the tree alone *)

Lemma set_child_same (d : Quadrant) b c ps nw ne sw se :
  QuadtreeNode.set_child d (QuadtreeNode.child d nw ne sw se)
    (QuadtreeNode.Divided b c ps nw ne sw se)
  = QuadtreeNode.Divided b c ps nw ne sw se.
Proof. destruct d; reflexivity. Qed.

Lemma search_children_frame b c ps nw ne sw se
    (call : Quadrant -> BestFound
            -> QuadtreeNode.t * (BestFound * result unit))
    (ds : list Quadrant) (best : BestFound) :
  (forall d best0, fst (call d best0) = QuadtreeNode.child d nw ne sw se) ->
  fst (QuadtreeNode.search_children call ds
         (QuadtreeNode.Divided b c ps nw ne sw se) best)
  = QuadtreeNode.Divided b c ps nw ne sw se.
Proof.
  intros Hcall.
  revert best. induction ds as [|d ds IH]; intros best; [reflexivity|].
  cbn [QuadtreeNode.search_children]. cbv zeta.
  rewrite Hcall, set_child_same.
  destruct (snd (snd (call d best))); [apply IH | reflexivity ..].
Qed.

Lemma query_eq (pow2 : float -> result float) (self : QuadtreeNode.t)
    (point : Point.t) (best_found : BestFound) :
  QuadtreeNode.query pow2 self point best_found =
  if best_dist_sq best_found
     <? Rectangle.distance_sq_to_point (QuadtreeNode.boundary self) point
  then (self, (best_found, Ok tt))
  else
    let s := scan pow2 point (QuadtreeNode.points self) best_found in
    match snd s with
    | Ok _ =>
        match self with
        | QuadtreeNode.Undivided _ _ _ => (self, (fst s, Ok tt))
        | QuadtreeNode.Divided _ _ _ nw ne sw se =>
            QuadtreeNode.search_children
              (fun d => QuadtreeNode.query pow2
                          (QuadtreeNode.child d nw ne sw se) point)
              (sort_by PrimFloat.ltb
                 (fun d => Rectangle.distance_sq_to_point
                             (QuadtreeNode.boundary
                                (QuadtreeNode.child d nw ne sw se)) point)
                 [NW; NE; SW; SE])
              self (fst s)
        end
    | e => (self, (fst s, e))
    end.
Proof. destruct self; reflexivity. Qed.

Lemma find_nearest_eq (pow2 : float -> result float)
    (self : QuadtreeNode.t) (query_point : Point.t)
    (best_found : BestFound) :
  QuadtreeNode._find_nearest pow2 self query_point best_found =
  if best_dist_sq best_found
     <? Rectangle.distance_sq_to_point (QuadtreeNode.boundary self)
          query_point
  then (self, (best_found, Ok tt))
  else
    let s := scan pow2 query_point (QuadtreeNode.points self) best_found in
    match snd s with
    | Ok _ =>
        match self with
        | QuadtreeNode.Undivided _ _ _ => (self, (fst s, Ok tt))
        | QuadtreeNode.Divided _ _ _ nw ne sw se =>
            QuadtreeNode.search_children
              (fun d => QuadtreeNode._find_nearest pow2
                          (QuadtreeNode.child d nw ne sw se) query_point)
              (sort_by bool_ltb
                 (fun d => negb (Rectangle.contains
                                   (QuadtreeNode.boundary
                                      (QuadtreeNode.child d nw ne sw se))
                                   query_point))
                 [NW; NE; SW; SE])
              self (fst s)
        end
    | e => (self, (fst s, e))
    end.
Proof. destruct self; reflexivity. Qed.

Lemma query_frame (pow2 : float -> result float) (t : QuadtreeNode.t)
    (q : Point.t) (best : BestFound) :
  fst (QuadtreeNode.query pow2 t q best) = t.
Proof.
  revert best.
  induction t as [b k ps | b k ps nw IHnw ne IHne sw IHsw se IHse];
    intros best; rewrite query_eq;
    destruct (_ <? _); try reflexivity; cbv zeta;
    destruct (snd (scan pow2 q _ best)); try reflexivity.
  apply search_children_frame.
  intros [] best0; cbn [QuadtreeNode.child]; auto.
Qed.

Lemma find_nearest_frame (pow2 : float -> result float)
    (t : QuadtreeNode.t) (q : Point.t) (best : BestFound) :
  fst (QuadtreeNode._find_nearest pow2 t q best) = t.
Proof.
  revert best.
  induction t as [b k ps | b k ps nw IHnw ne IHne sw IHsw se IHse];
    intros best; rewrite find_nearest_eq;
    destruct (_ <? _); try reflexivity; cbv zeta;
    destruct (snd (scan pow2 q _ best)); try reflexivity.
  apply search_children_frame.
  intros [] best0; cbn [QuadtreeNode.child]; auto.
Qed.

(** ** The call-stack allowance *)

Lemma for_each_mono {S A : Type} (f g : S -> A -> result S) :
  (forall s a r, f s a = Ok r -> g s a = Ok r) ->
  forall l s r, for_each f l s = Ok r -> for_each g l s = Ok r.
Proof.
  intros Hfg l. induction l as [|a l IH]; intros s r H; [exact H|].
  cbn [for_each] in *.
  apply bind_Ok in H. destruct H as (s1 & H1 & H2).
  rewrite (Hfg _ _ _ H1). cbn [bind]. apply IH, H2.
Qed.

Lemma insert_mono_step (fuel : nat) :
  (forall t p r,
      QuadtreeNode.insert fuel t p = Ok r ->
      QuadtreeNode.insert (S fuel) t p = Ok r)
  /\ (forall t p r,
         QuadtreeNode._insert_to_children fuel t p = Ok r ->
         QuadtreeNode._insert_to_children (S fuel) t p = Ok r).
Proof.
  induction fuel as [|fuel [IHi IHc]]; [split; discriminate|].
  assert (Hmove : forall s a r,
             move_point fuel s a = Ok r -> move_point (S fuel) s a = Ok r).
  { intros s a r H. unfold move_point in *.
    apply bind_Ok in H. destruct H as (x & H1 & H2).
    rewrite (IHc _ _ _ H1). exact H2. }
  split.
  - intros t p r H. rewrite insert_S in *.
    destruct (negb (Rectangle.contains (QuadtreeNode.boundary t) p));
      [exact H|].
    destruct (_ && _); [exact H|].
    apply bind_Ok in H. destruct H as (self' & H1 & H2).
    apply IHc in H2.
    destruct (negb (QuadtreeNode.divided t)).
    + apply bind_Ok in H1. destruct H1 as (s & Hs & H1).
      apply bind_Ok in H1. destruct H1 as (s' & Hl & H1).
      rewrite Hs. cbn [bind].
      rewrite (for_each_mono _ _ Hmove _ _ _ Hl). cbn [bind].
      injection H1 as <-. exact H2.
    + injection H1 as <-. exact H2.
  - intros [b k ps | b k ps nw ne sw se] p r H; [discriminate|].
    rewrite insert_to_children_S in *.
    repeat match type of H with
           | context [QuadtreeNode.insert fuel ?t p] =>
               let E := fresh "E" in
               destruct (QuadtreeNode.insert fuel t p) as [[? []]| | |] eqn:E;
               cbn [bind fst snd] in H; try discriminate;
               rewrite (IHi _ _ _ E); cbn [bind fst snd]
           end;
      exact H.
Qed.

Lemma insert_mono (fuel fuel' : nat) (t : QuadtreeNode.t) (p : Point.t)
    (r : QuadtreeNode.t * bool) :
  (fuel <= fuel')%nat ->
  QuadtreeNode.insert fuel t p = Ok r ->
  QuadtreeNode.insert fuel' t p = Ok r.
Proof.
  induction 1 as [|fuel' _ IH]; intros H; [exact H|].
  apply insert_mono_step, IH, H.
Qed.

Lemma handle_insert_mono (fuel fuel' : nat) (qt : Quadtree.t)
    (p : Point.t) (r : Quadtree.t * bool) :
  (fuel <= fuel')%nat ->
  Quadtree.insert fuel qt p = Ok r -> Quadtree.insert fuel' qt p = Ok r.
Proof.
  intros Hle H. unfold Quadtree.insert in *.
  apply bind_Ok in H. destruct H as (x & H1 & H2).
  rewrite (insert_mono _ _ _ _ _ Hle H1). exact H2.
Qed.

Lemma populate_mono (fuel fuel' : nat) (qt qt' : Quadtree.t)
    (l : list Point.t) :
  (fuel <= fuel')%nat ->
  populate fuel qt l = Ok qt' -> populate fuel' qt l = Ok qt'.
Proof.
  intros Hle. unfold populate. apply for_each_mono.
  intros s a r H. apply bind_Ok in H. destruct H as (x & H1 & H2).
  rewrite (handle_insert_mono _ _ _ _ _ Hle H1). exact H2.
Qed.

(** ** Insertion raises nothing *)

Lemma insert_returns_or_exhausts (fuel : nat) (t : QuadtreeNode.t)
    (p : Point.t) :
  QuadtreeNode.insert fuel t p <> AttributeError
  /\ QuadtreeNode.insert fuel t p <> OverflowError.
Proof.
  destruct (insert_invariant 0 fuel) as [Hi _].
  specialize (Hi t p). unfold insert_post in Hi.
  destruct (QuadtreeNode.insert fuel t p) as [[? ?]| | |];
    split; try discriminate; contradiction.
Qed.

(** ** Order of floats *)

Ltac sf_order :=
  unfold SFltb, SFleb, SFeqb, SFcompare;
  repeat match goal with
         | |- context [match ?x with S754_zero _ => _ | _ => _ end] =>
             is_var x; destruct x as [[]|[]| |[] ? ?]
         end;
  try discriminate; try reflexivity;
  repeat match goal with
         | |- context [Z.compare ?a ?b] =>
             destruct (Z.compare_spec a b); subst
         | |- context [PosDef.Pos.compare_cont Eq ?a ?b] =>
             change (PosDef.Pos.compare_cont Eq a b) with (Pos.compare a b);
             destruct (Pos.compare_spec a b); subst
         end;
  cbn [CompOpp]; try discriminate; try reflexivity; try lia.

Lemma SFltb_trans (a b c : spec_float) :
  SFltb a b = true -> SFltb b c = true -> SFltb a c = true.
Proof. sf_order. Qed.

Lemma SFleb_ltb_trans (a b c : spec_float) :
  SFleb a b = true -> SFltb b c = true -> SFltb a c = true.
Proof. sf_order. Qed.

Lemma SFltb_irrefl (a : spec_float) : SFltb a a = false.
Proof. sf_order. Qed.

Lemma SFltb_asym (a b : spec_float) :
  SFltb a b = true -> SFltb b a = false.
Proof. sf_order. Qed.

Lemma SFleb_ltb_false (a b : spec_float) :
  SFleb a b = true -> SFltb b a = false.
Proof. sf_order. Qed.

Lemma SFeqb_ltb_false (a b : spec_float) :
  SFeqb a b = true -> SFltb a b = false.
Proof. sf_order. Qed.

Lemma SFeqb_ltb_false_r (a b : spec_float) :
  SFeqb a b = true -> SFltb b a = false.
Proof. sf_order. Qed.

Lemma ltb_trans (a b c : float) :
  (a <? b) = true -> (b <? c) = true -> (a <? c) = true.
Proof. rewrite !FloatAxioms.ltb_spec. apply SFltb_trans. Qed.

Lemma leb_ltb_trans (a b c : float) :
  (a <=? b) = true -> (b <? c) = true -> (a <? c) = true.
Proof. rewrite FloatAxioms.leb_spec, !FloatAxioms.ltb_spec. apply SFleb_ltb_trans. Qed.

Lemma ltb_irrefl (a : float) : (a <? a) = false.
Proof. rewrite FloatAxioms.ltb_spec. apply SFltb_irrefl. Qed.

Lemma ltb_asym (a b : float) : (a <? b) = true -> (b <? a) = false.
Proof. rewrite !FloatAxioms.ltb_spec. apply SFltb_asym. Qed.

Lemma leb_ltb_false (a b : float) : (a <=? b) = true -> (b <? a) = false.
Proof. rewrite FloatAxioms.leb_spec, FloatAxioms.ltb_spec. apply SFleb_ltb_false. Qed.

Lemma eqb_ltb_false (a b : float) : (a =? b) = true -> (a <? b) = false.
Proof. rewrite FloatAxioms.eqb_spec, FloatAxioms.ltb_spec. apply SFeqb_ltb_false. Qed.

(** ** Sorting permutes *)






(** ** Children of one node do not overlap *)

Lemma contains_true (r : Rectangle.t) (p : Point.t) :
  Rectangle.contains r p = true ->
  (Rectangle.x r <=? Point.x p) = true
  /\ (Point.x p <? Rectangle.x r + Rectangle.width r) = true
  /\ (Rectangle.y r <=? Point.y p) = true
  /\ (Point.y p <? Rectangle.y r + Rectangle.height r) = true.
Proof.
  unfold Rectangle.contains. rewrite !andb_true_iff. tauto.
Qed.

Lemma quarters_disjoint (b : Rectangle.t) (p : Point.t) (d d' : Quadrant) :
  Rectangle.contains (quarter d b) p = true ->
  Rectangle.contains (quarter d' b) p = true ->
  d = d'.
Proof.
  intros H H'. apply contains_true in H, H'.
  destruct H as (X1 & X2 & Y1 & Y2), H' as (X1' & X2' & Y1' & Y2').
  destruct d, d'; try reflexivity; exfalso;
    cbn [quarter Rectangle.x Rectangle.y Rectangle.width Rectangle.height]
      in *;
    first [ rewrite (leb_ltb_false _ _ X1) in X2'; discriminate
          | rewrite (leb_ltb_false _ _ X1') in X2; discriminate
          | rewrite (leb_ltb_false _ _ Y1) in Y2'; discriminate
          | rewrite (leb_ltb_false _ _ Y1') in Y2; discriminate ].
Qed.

(** ** Points on a split line *)

Lemma contains_west_false (b : Rectangle.t) (p : Point.t) (d : Quadrant) :
  (Point.x p =? Rectangle.x b + Rectangle.width b / 2) = true ->
  d = NW \/ d = SW ->
  Rectangle.contains (quarter d b) p = false.
Proof.
  intros H Hd. apply eqb_ltb_false in H.
  unfold Rectangle.contains.
  destruct Hd as [-> | ->];
    cbn [quarter Rectangle.x Rectangle.y Rectangle.width Rectangle.height];
    rewrite H, andb_false_r; reflexivity.
Qed.

Lemma contains_north_false (b : Rectangle.t) (p : Point.t) (d : Quadrant) :
  (Point.y p =? Rectangle.y b + Rectangle.height b / 2) = true ->
  d = NW \/ d = NE ->
  Rectangle.contains (quarter d b) p = false.
Proof.
  intros H Hd. apply eqb_ltb_false in H.
  unfold Rectangle.contains.
  destruct Hd as [-> | ->];
    cbn [quarter Rectangle.x Rectangle.y Rectangle.width Rectangle.height];
    rewrite H, !andb_false_r; reflexivity.
Qed.

Lemma insert_spare (fuel : nat) (t : QuadtreeNode.t) (p : Point.t) :
  Rectangle.contains (QuadtreeNode.boundary t) p = true ->
  QuadtreeNode.divided t = false ->
  (Z.of_nat (List.length (QuadtreeNode.points t))
   < QuadtreeNode.capacity t)%Z ->
  QuadtreeNode.insert (S fuel) t p
  = Ok (QuadtreeNode.set_points t (QuadtreeNode.points t ++ [p]), true).
Proof.
  intros Hp Hd Hlen. rewrite insert_S, Hp, Hd.
  apply Z.ltb_lt in Hlen. rewrite Hlen. reflexivity.
Qed.

Lemma sample_wf : wf sample_root.
Proof.
  destruct (built_invariant _ _ _ _ sample_built) as (_ & _ & _ & W & _).
  exact W.
Qed.

(** ** An empty range of abscissas or ordinates *)

Lemma contains_degenerate (b : Rectangle.t) (p : Point.t) :
  (Rectangle.x b <? Rectangle.x b + Rectangle.width b) = false
  \/ (Rectangle.y b <? Rectangle.y b + Rectangle.height b) = false ->
  Rectangle.contains b p = false.
Proof.
  intros H. destruct (Rectangle.contains b p) eqn:E; [|reflexivity].
  apply contains_true in E. destruct E as (X1 & X2 & Y1 & Y2).
  destruct H as [H | H].
  - rewrite (leb_ltb_trans _ _ _ X1 X2) in H. discriminate.
  - rewrite (leb_ltb_trans _ _ _ Y1 Y2) in H. discriminate.
Qed.

Lemma SFltb_infinity (a : spec_float) : SFltb (S754_infinity false) a = false.
Proof. destruct a as [[]|[]| |[] ? ?]; reflexivity. Qed.

Lemma ltb_infinity (a : float) : (infinity <? a) = false.
Proof. rewrite FloatAxioms.ltb_spec. apply SFltb_infinity. Qed.

Lemma built_degenerate (b : Rectangle.t) (c : Z) (l : list Point.t)
    (qt : Quadtree.t) :
  (forall p, Rectangle.contains b p = false) ->
  built b c l qt ->
  qt = Quadtree.mk b (QuadtreeNode.Undivided b c []).
Proof.
  intros Hout. induction 1 as [qt Hinit | l qt fuel p qt' r _ IH Hins].
  - injection Hinit as <-. reflexivity.
  - subst qt. destruct fuel as [|fuel]; [discriminate|].
    unfold Quadtree.insert in Hins.
    rewrite insert_outside in Hins by apply Hout.
    injection Hins as <- _. reflexivity.
Qed.

(** ** Nodes of a well-formed tree *)

Lemma wf_nodes (t n : QuadtreeNode.t) : wf t -> In n (nodes t) -> wf n.
Proof.
  induction t as [b k ps | b k ps nw IHnw ne IHne sw IHsw se IHse];
    cbn [nodes]; intros Hwf Hin.
  - destruct Hin as [<- | []]. exact Hwf.
  - destruct Hin as [<- | Hin]; [exact Hwf|].
    destruct Hwf as (_ & (_ & W1) & (_ & W2) & (_ & W3) & (_ & W4)).
    rewrite !in_app_iff in Hin.
    destruct Hin as [Hin | [Hin | [Hin | Hin]]]; auto.
Qed.

Lemma wf_node_geometry (n : QuadtreeNode.t) : wf n -> node_geometry n.
Proof.
  destruct n as [b k ps | b k ps nw ne sw se]; unfold node_geometry;
    cbn [wf]; [tauto|].
  intros (HF & (B1 & _) & (B2 & _) & (B3 & _) & (B4 & _)). auto.
Qed.

(** ** What a search leaves in the accumulator *)

Section Sound.

Variable pow2 : float -> result float.
Variable q : Point.t.

Lemma refines_refl (l : list Point.t) (best : BestFound) :
  refines pow2 q l best best.
Proof. left. reflexivity. Qed.

Lemma refines_incl (l l' : list Point.t) (best best' : BestFound) :
  incl l l' -> refines pow2 q l best best' -> refines pow2 q l' best best'.
Proof.
  intros Hi [-> | (p & d & Hin & Hd & -> & Hlt)]; [left; reflexivity|].
  right. exists p, d. auto.
Qed.

Lemma refines_trans (l : list Point.t) (b0 b1 b2 : BestFound) :
  refines pow2 q l b0 b1 -> refines pow2 q l b1 b2 -> refines pow2 q l b0 b2.
Proof.
  intros [-> | (p1 & d1 & Hin1 & Hd1 & -> & Hlt1)] H2; [exact H2|].
  destruct H2 as [-> | (p2 & d2 & Hin2 & Hd2 & -> & Hlt2)].
  - right. exists p1, d1. auto.
  - right. exists p2, d2. repeat split; auto.
    cbn [best_dist_sq] in Hlt2. eapply ltb_trans; eassumption.
Qed.

Lemma raised_incl (l l' : list Point.t) (e : result unit) :
  incl l l' -> raised pow2 q l e -> raised pow2 q l' e.
Proof.
  intros Hi [-> | (Hne & p & Hin & Hs)]; [left; reflexivity|].
  right. split; [exact Hne|]. exists p. auto.
Qed.

Lemma scan_sound (l : list Point.t) (best : BestFound) :
  refines pow2 q l best (fst (scan pow2 q l best))
  /\ raised pow2 q l (snd (scan pow2 q l best)).
Proof.
  revert best. induction l as [|p l IH]; intros best.
  - split; [apply refines_refl | left; reflexivity].
  - cbn [scan].
    destruct (dist_sq pow2 p q) as [d| | |] eqn:Hd;
      cbn [fst snd status bind];
      try (split; [apply refines_refl|];
           right; split; [discriminate|];
           exists p; split; [left; reflexivity|];
           rewrite Hd; reflexivity).
    destruct (IH (scan_step best p d)) as [R E].
    split.
    + apply refines_trans with (scan_step best p d).
      * unfold scan_step. destruct (d <? best_dist_sq best) eqn:Hlt;
          [|apply refines_refl].
        right. exists p, d. repeat split; auto. left. reflexivity.
      * eapply refines_incl; [|exact R]. apply incl_tl, incl_refl.
    + eapply raised_incl; [|exact E]. apply incl_tl, incl_refl.
Qed.

Lemma child_points_incl (d : Quadrant) b k ps nw ne sw se :
  incl (all_points (QuadtreeNode.child d nw ne sw se))
       (all_points (QuadtreeNode.Divided b k ps nw ne sw se)).
Proof.
  intros p Hp. cbn [all_points]. rewrite !in_app_iff.
  destruct d; cbn [QuadtreeNode.child] in Hp; tauto.
Qed.

Lemma search_children_sound b k ps nw ne sw se
    (call : Quadrant -> BestFound
            -> QuadtreeNode.t * (BestFound * result unit))
    (ds : list Quadrant) (self : QuadtreeNode.t) (best : BestFound) :
  (forall d best0,
      refines pow2 q (all_points (QuadtreeNode.child d nw ne sw se)) best0
        (fst (snd (call d best0)))
      /\ raised pow2 q (all_points (QuadtreeNode.child d nw ne sw se))
           (snd (snd (call d best0)))) ->
  let l := all_points (QuadtreeNode.Divided b k ps nw ne sw se) in
  refines pow2 q l best
    (fst (snd (QuadtreeNode.search_children call ds self best)))
  /\ raised pow2 q l (snd (snd (QuadtreeNode.search_children call ds self best))).
Proof.
  intros Hcall l. revert self best.
  induction ds as [|d ds IH]; intros self best.
  - split; [apply refines_refl | left; reflexivity].
  - cbn [QuadtreeNode.search_children]. cbv zeta.
    destruct (Hcall d best) as [R E].
    apply (refines_incl _ l) in R; [|apply child_points_incl].
    apply (raised_incl _ l) in E; [|apply child_points_incl].
    destruct (snd (snd (call d best))) as [[]| | |] eqn:Hs;
      cbn [fst snd]; try (split; [exact R | exact E]).
    destruct (IH (QuadtreeNode.set_child d (fst (call d best)) self)
                (fst (snd (call d best)))) as [R' E'].
    split; [eapply refines_trans; eassumption | exact E'].
Qed.

Lemma query_sound (t : QuadtreeNode.t) (best : BestFound) :
  refines pow2 q (all_points t) best (fst (snd (QuadtreeNode.query pow2 t q best)))
  /\ raised pow2 q (all_points t) (snd (snd (QuadtreeNode.query pow2 t q best))).
Proof.
  revert best.
  induction t as [b k ps | b k ps nw IHnw ne IHne sw IHsw se IHse];
    intros best; rewrite query_eq;
    (destruct (_ <? _);
     [split; [apply refines_refl | left; reflexivity]|]);
    cbv zeta; cbn [QuadtreeNode.points];
    destruct (scan_sound ps best) as [R E].
  - cbn [all_points].
    destruct (snd (scan pow2 q ps best)) as [[]| | |]; cbn [fst snd];
      split; auto; left; reflexivity.
  - assert (Hi : incl ps (all_points
                            (QuadtreeNode.Divided b k ps nw ne sw se)))
      by (intros p Hp; cbn [all_points]; apply in_or_app; left; exact Hp).
    apply (refines_incl _ _ _ _ Hi) in R.
    apply (raised_incl _ _ _ Hi) in E.
    destruct (snd (scan pow2 q ps best)) as [[]| | |] eqn:Hs;
      cbn [fst snd]; try (split; [exact R | exact E]).
    match goal with
    | |- context [QuadtreeNode.search_children ?call ?ds ?self ?b0] =>
        destruct (search_children_sound b k ps nw ne sw se call ds self b0)
          as [R' E']
    end.
    { intros [] best0; cbn [QuadtreeNode.child]; auto. }
    split; [eapply refines_trans; eassumption | exact E'].
Qed.

Lemma find_nearest_sound (t : QuadtreeNode.t) (best : BestFound) :
  refines pow2 q (all_points t) best
    (fst (snd (QuadtreeNode._find_nearest pow2 t q best)))
  /\ raised pow2 q (all_points t)
       (snd (snd (QuadtreeNode._find_nearest pow2 t q best))).
Proof.
  revert best.
  induction t as [b k ps | b k ps nw IHnw ne IHne sw IHsw se IHse];
    intros best; rewrite find_nearest_eq;
    (destruct (_ <? _);
     [split; [apply refines_refl | left; reflexivity]|]);
    cbv zeta; cbn [QuadtreeNode.points];
    destruct (scan_sound ps best) as [R E].
  - cbn [all_points].
    destruct (snd (scan pow2 q ps best)) as [[]| | |]; cbn [fst snd];
      split; auto; left; reflexivity.
  - assert (Hi : incl ps (all_points
                            (QuadtreeNode.Divided b k ps nw ne sw se)))
      by (intros p Hp; cbn [all_points]; apply in_or_app; left; exact Hp).
    apply (refines_incl _ _ _ _ Hi) in R.
    apply (raised_incl _ _ _ Hi) in E.
    destruct (snd (scan pow2 q ps best)) as [[]| | |] eqn:Hs;
      cbn [fst snd]; try (split; [exact R | exact E]).
    match goal with
    | |- context [QuadtreeNode.search_children ?call ?ds ?self ?b0] =>
        destruct (search_children_sound b k ps nw ne sw se call ds self b0)
          as [R' E']
    end.
    { intros [] best0; cbn [QuadtreeNode.child]; auto. }
    split; [eapply refines_trans; eassumption | exact E'].
Qed.

End Sound.

(** ** The oracle *)

Section OracleLoop.

Variable pow2 : float -> result float.
Variable q : Point.t.

Lemma brute_force_loop_post (l seen : list Point.t)
    (best_p : option Point.t) (m : float) :
  oracle_inv pow2 q seen best_p m ->
  oracle_post pow2 q (seen ++ l) (brute_force_loop pow2 q l best_p m).
Proof.
  revert seen best_p m. induction l as [|p l IH]; intros seen best_p m Hinv.
  - cbn. rewrite app_nil_r. exact Hinv.
  - cbn [brute_force_loop].
    assert (Hin : In p (seen ++ p :: l))
      by (apply in_or_app; right; left; reflexivity).
    destruct (dist_sq pow2 p q) as [d| | |] eqn:Hd; cbn [bind];
      try (exists p; split; [exact Hin | rewrite Hd; reflexivity]).
    replace (seen ++ p :: l) with ((seen ++ [p]) ++ l)
      by (rewrite <- app_assoc; reflexivity).
    destruct Hinv as [Hbest Hmin].
    destruct (d <? m) eqn:Hlt; apply IH; split.
    + split; [apply in_or_app; right; left; reflexivity|].
      split; [exact Hd|].
      destruct best_p as [p0|].
      * destruct Hbest as (_ & _ & Hfin). eapply ltb_trans; eassumption.
      * subst m. exact Hlt.
    + intros p' Hp'. apply in_app_or in Hp'. destruct Hp' as [Hp' | [<- | []]].
      * destruct (Hmin p' Hp') as (d' & Hd' & Hge). exists d'.
        split; [exact Hd'|].
        destruct (d' <? d) eqn:E; [|reflexivity].
        rewrite (ltb_trans _ _ _ E Hlt) in Hge. discriminate.
      * exists d. split; [exact Hd | apply ltb_irrefl].
    + destruct best_p as [p0|]; [|exact Hbest].
      destruct Hbest as (Hin0 & Hd0 & Hfin).
      split; [apply in_or_app; left; exact Hin0 | auto].
    + intros p' Hp'. apply in_app_or in Hp'. destruct Hp' as [Hp' | [<- | []]].
      * apply Hmin, Hp'.
      * exists d. split; [exact Hd | exact Hlt].
Qed.

End OracleLoop.

(** ** A capacity that is not positive *)

Lemma cap_all_children (c : Z) b k ps nw ne sw se :
  cap_all c (QuadtreeNode.Divided b k ps nw ne sw se) <->
  k = c /\ cap_all c nw /\ cap_all c ne /\ cap_all c sw /\ cap_all c se.
Proof.
  unfold cap_all. cbn [nodes]. split.
  - intros H. inversion H as [|? ? Hk HF].
    rewrite !Forall_app in HF. cbn in Hk. tauto.
  - intros (-> & H1 & H2 & H3 & H4). constructor; [reflexivity|].
    rewrite !Forall_app. tauto.
Qed.

Lemma no_accept (c : Z) (fuel : nat) :
  (c <= 0)%Z ->
  (forall t p t' r,
      cap_all c t -> QuadtreeNode.insert fuel t p = Ok (t', r) ->
      r = false /\ cap_all c t')
  /\ (forall t p t' r,
         cap_all c t ->
         QuadtreeNode._insert_to_children fuel t p = Ok (t', r) ->
         r = false /\ cap_all c t').
Proof.
  intros Hc. induction fuel as [|fuel [IHi IHc]]; [split; discriminate|].
  split.
  - intros t p t' r Hcap H. rewrite insert_S in H.
    destruct (negb (Rectangle.contains (QuadtreeNode.boundary t) p)).
    { injection H as <- <-. auto. }
    assert (Hk : QuadtreeNode.capacity t = c).
    { unfold cap_all in Hcap. destruct t; cbn [nodes] in Hcap;
        inversion Hcap; assumption. }
    rewrite Hk in H.
    replace (Z.of_nat (List.length (QuadtreeNode.points t)) <? c)%Z
      with false in H by (symmetry; apply Z.ltb_ge; lia).
    cbn [andb] in H.
    apply bind_Ok in H. destruct H as (self' & H1 & H2).
    apply (IHc _ _ _ _) in H2; [exact H2|].
    destruct (negb (QuadtreeNode.divided t)); [|injection H1 as <-; exact Hcap].
    rewrite subdivide_eq in H1. cbv zeta in H1. cbn [bind] in H1.
    apply bind_Ok in H1. destruct H1 as (s' & Hl & H1).
    injection H1 as <-.
    assert (Hloop : forall l s s0,
               cap_all c s -> for_each (move_point fuel) l s = Ok s0 ->
               cap_all c s0).
    { induction l as [|a l IHl]; intros s s0 Hs0 Hl0.
      - injection Hl0 as <-. exact Hs0.
      - cbn [for_each] in Hl0. apply bind_Ok in Hl0.
        destruct Hl0 as (s1 & Hm & Hl0). unfold move_point in Hm.
        apply bind_Ok in Hm. destruct Hm as ([s1' r1] & Hm & Hret).
        injection Hret as <-.
        apply (IHl s1'); [|exact Hl0].
        exact (proj2 (IHc _ _ _ _ Hs0 Hm)). }
    assert (Hs : cap_all c s').
    { apply (Hloop _ _ _) in Hl; [exact Hl|].
      apply cap_all_children. rewrite Hk.
      repeat split; repeat constructor. }
    destruct s' as [b k ps | b k ps nw ne sw se];
      cbn [QuadtreeNode.set_points].
    + unfold cap_all in *. cbn [nodes] in *.
      inversion Hs; subst. repeat constructor. assumption.
    + apply cap_all_children. apply cap_all_children in Hs. exact Hs.
  - intros [b k ps | b k ps nw ne sw se] p t' r Hcap H; [discriminate|].
    rewrite insert_to_children_S in H.
    apply cap_all_children in Hcap.
    destruct Hcap as (-> & C1 & C2 & C3 & C4).
    destruct (QuadtreeNode.insert fuel nw p) as [[nw' r1]| | |] eqn:E1;
      cbn [bind fst snd] in H; try discriminate.
    destruct (IHi _ _ _ _ C1 E1) as [-> C1']. cbn [bind fst snd] in H.
    destruct (QuadtreeNode.insert fuel ne p) as [[ne' r2]| | |] eqn:E2;
      cbn [bind fst snd] in H; try discriminate.
    destruct (IHi _ _ _ _ C2 E2) as [-> C2']. cbn [bind fst snd] in H.
    destruct (QuadtreeNode.insert fuel sw p) as [[sw' r3]| | |] eqn:E3;
      cbn [bind fst snd] in H; try discriminate.
    destruct (IHi _ _ _ _ C3 E3) as [-> C3']. cbn [bind fst snd] in H.
    destruct (QuadtreeNode.insert fuel se p) as [[se' r4]| | |] eqn:E4;
      cbn [bind fst snd] in H; try discriminate.
    destruct (IHi _ _ _ _ C4 E4) as [-> C4'].
    injection H as <- <-. split; [reflexivity|].
    apply cap_all_children. auto.
Qed.

Lemma nonpositive_built (b : Rectangle.t) (c : Z) (l : list Point.t)
    (qt : Quadtree.t) :
  (c <= 0)%Z -> built b c l qt ->
  cap_all c (Quadtree.root qt) /\ stored qt = [].
Proof.
  intros Hc. unfold stored.
  induction 1 as [qt Hinit | l qt fuel p qt' r _ IH Hins].
  - injection Hinit as <-. cbn. split; [repeat constructor | reflexivity].
  - destruct IH as [Hcap Hnil].
    unfold Quadtree.insert in Hins.
    apply bind_Ok in Hins. destruct Hins as ([t' r'] & Hins & Hret).
    cbn [fst snd] in Hret. injection Hret as <- <-.
    cbn [Quadtree.root].
    destruct (proj1 (no_accept c fuel Hc) _ _ _ _ Hcap Hins) as [-> Hcap'].
    split; [exact Hcap'|].
    pose proof (proj1 (insert_invariant c fuel) (Quadtree.root qt) p) as Hp.
    rewrite Hins in Hp. destruct Hp as (_ & _ & _ & G & _).
    apply gains_incl_false in G. rewrite Hnil in G.
    destruct (all_points t') as [|a ?]; [reflexivity|].
    destruct (G a (or_introl eq_refl)).
Qed.

(** ** The inputs on which rounding shows *)

Lemma gap_second_insert (fuel : nat) :
  Quadtree.insert (3 + fuel) gap_qt1 gap_z = Ok (gap_qt2, true).
Proof.
  apply (handle_insert_mono 3); [lia|]. vm_compute. reflexivity.
Qed.

Lemma far_built : built far_b 1 [far_a; far_z] far_qt.
Proof.
  apply (built_populate 5 far_b 1 [far_a; far_z] []
           (Quadtree.mk far_b (QuadtreeNode.Undivided far_b 1 []))).
  - apply built_init. reflexivity.
  - vm_compute. reflexivity.
Qed.

(** * The claims *)

(** C1 fails on the code.  In the rectangle [gap_b] with capacity 1,
    [insert(gap_p)] and then [insert(gap_z)] both return [True], yet the
    second call loses the first point: redistribution offers it to the four
    children, all of which reject it.  The tree then stores [gap_z] only,
    so that [find_nearest] asked at the very place of the first point
    answers with the second one at a positive distance, while the oracle
    run over the two accepted points answers with the first at distance
    [0].  This holds for every [** 2] and [math.sqrt] that square [0] to
    [0] and give the distance between the two points a finite positive
    square. *)
Theorem C1_accepted_point_lost (pow2 : float -> result float)
    (sqrt : float -> float) (d : float) :
  pow2 0 = Ok 0 ->
  dist_sq pow2 gap_z gap_p = Ok d ->
  (0 <? d) = true ->
  (d <? infinity) = true ->
  Quadtree.insert 1 gap_qt0 gap_p = Ok (gap_qt1, true)
  /\ (forall fuel,
         Quadtree.insert (3 + fuel) gap_qt1 gap_z = Ok (gap_qt2, true))
  /\ stored gap_qt2 = [gap_z]
  /\ find_closest_brute_force pow2 gap_p [gap_p; gap_z]
     = Ok (Some gap_p, 0)
  /\ Quadtree.find_nearest pow2 sqrt gap_qt2 gap_p
     = (gap_qt2, Ok (Some gap_z, sqrt d)).
Proof.
  intros H0 Hd Hpos Hfin.
  split; [reflexivity|].
  split; [apply gap_second_insert|].
  split; [reflexivity|].
  split.
  - unfold find_closest_brute_force. cbn [brute_force_loop].
    assert (E : dist_sq pow2 gap_p gap_p = Ok 0).
    { unfold dist_sq. cbn. rewrite H0. reflexivity. }
    rewrite E, Hd. cbn [bind].
    change (0 <? infinity) with true. cbv iota.
    rewrite (ltb_asym _ _ Hpos). reflexivity.
  - unfold Quadtree.find_nearest.
    cbv -[dist_sq] in Hd, Hfin |- *. rewrite Hd. cbv -[dist_sq].
    rewrite Hfin. destruct (d <? 0.0625); reflexivity.
Qed.

Lemma C1_lost_point_sample :
  pow2_rounded 0 = Ok 0
  /\ dist_sq pow2_rounded gap_z gap_p = Ok 0.87249999999999983
  /\ (0 <? 0.87249999999999983) = true
  /\ (0.87249999999999983 <? infinity) = true
  /\ Quadtree.insert 1 gap_qt0 gap_p = Ok (gap_qt1, true)
  /\ (forall fuel,
         Quadtree.insert (3 + fuel) gap_qt1 gap_z = Ok (gap_qt2, true))
  /\ stored gap_qt2 = [gap_z]
  /\ find_closest_brute_force pow2_rounded gap_p [gap_p; gap_z]
     = Ok (Some gap_p, 0)
  /\ Quadtree.find_nearest pow2_rounded PrimFloat.sqrt gap_qt2 gap_p
     = (gap_qt2, Ok (Some gap_z, PrimFloat.sqrt 0.87249999999999983)).
Proof.
  assert (H0 : pow2_rounded 0 = Ok 0) by reflexivity.
  assert (Hd : dist_sq pow2_rounded gap_z gap_p = Ok 0.87249999999999983)
    by (vm_compute; reflexivity).
  assert (Hpos : (0 <? 0.87249999999999983) = true) by reflexivity.
  assert (Hfin : (0.87249999999999983 <? infinity) = true) by reflexivity.
  split; [exact H0|]. split; [exact Hd|].
  split; [exact Hpos|]. split; [exact Hfin|].
  exact (C1_accepted_point_lost pow2_rounded PrimFloat.sqrt
           0.87249999999999983 H0 Hd Hpos Hfin).
Defined.

(** C2 fails on the code.  The rectangle [over_r] contains [over_p], and
    the bound [distance_sq_to_point] computes for [over_q], the rounded
    product [160663.33047034597], is strictly larger than the squared
    Euclidean distance between [over_q] and [over_p]: the bound
    overestimates.  For the far query point [over_far] the bound is
    [infinity], larger than every squared distance between floats. *)
Theorem C2_bound_overestimates :
  Rectangle.contains over_r over_p = true
  /\ Rectangle.distance_sq_to_point over_r over_q = 160663.33047034597
  /\ (exact_dist_sq over_q over_p
      < exact (Rectangle.distance_sq_to_point over_r over_q))%Q
  /\ Rectangle.distance_sq_to_point over_r over_far = infinity.
Proof.
  split; [reflexivity|].
  split; [reflexivity|].
  split; [vm_compute; reflexivity | reflexivity].
Qed.

(** C3 fails on the code.  On the reachable tree [far_qt], whose two
    stored points lie so far apart that a squared distance between its
    quarters overflows, [query] from the empty accumulator returns with the
    point [far_z], whereas [_find_nearest] and the exhaustive scan raise
    [OverflowError]: the two variants do not end with the same distance.
    This holds for every [** 2] that squares [0] to [0], gives the short
    distance to [far_z] a finite square and raises on the long distance to
    [far_a]. *)
Theorem C3_variants_differ (pow2 : float -> result float) (v : float) :
  pow2 0 = Ok 0 ->
  pow2 (Point.y far_z - Point.y far_q) = Ok v ->
  (0 + v <? infinity) = true ->
  pow2 (Point.x far_a - Point.x far_q) = OverflowError ->
  built far_b 1 [far_a; far_z] far_qt
  /\ stored far_qt = [far_a; far_z]
  /\ QuadtreeNode.query pow2 far_root far_q no_best
     = (far_root, (mkBest (0 + v) (Some far_z), Ok tt))
  /\ QuadtreeNode._find_nearest pow2 far_root far_q no_best
     = (far_root, (no_best, OverflowError))
  /\ find_closest_brute_force pow2 far_q (stored far_qt) = OverflowError.
Proof.
  intros H0 Hv Hfin Hover.
  split; [exact far_built|].
  split; [reflexivity|].
  cbv in H0, Hv, Hfin, Hover.
  split; [|split].
  - cbv. rewrite H0, Hv. cbv. rewrite !Hfin. cbv. rewrite ?Hfin. reflexivity.
  - cbv. rewrite Hover. reflexivity.
  - cbv. rewrite Hover. reflexivity.
Qed.

Lemma C3_overflow_sample :
  pow2_rounded 0 = Ok 0
  /\ pow2_rounded (Point.y far_z - Point.y far_q)
     = Ok 9.9999971761104062e+299
  /\ (0 + 9.9999971761104062e+299 <? infinity) = true
  /\ pow2_rounded (Point.x far_a - Point.x far_q) = OverflowError
  /\ built far_b 1 [far_a; far_z] far_qt
  /\ stored far_qt = [far_a; far_z]
  /\ QuadtreeNode.query pow2_rounded far_root far_q no_best
     = (far_root,
        (mkBest (0 + 9.9999971761104062e+299) (Some far_z), Ok tt))
  /\ QuadtreeNode._find_nearest pow2_rounded far_root far_q no_best
     = (far_root, (no_best, OverflowError))
  /\ find_closest_brute_force pow2_rounded far_q (stored far_qt)
     = OverflowError.
Proof.
  assert (H0 : pow2_rounded 0 = Ok 0) by reflexivity.
  assert (Hv : pow2_rounded (Point.y far_z - Point.y far_q)
               = Ok 9.9999971761104062e+299) by (vm_compute; reflexivity).
  assert (Hfin : (0 + 9.9999971761104062e+299 <? infinity) = true)
    by reflexivity.
  assert (Hover : pow2_rounded (Point.x far_a - Point.x far_q)
                  = OverflowError) by reflexivity.
  split; [exact H0|]. split; [exact Hv|].
  split; [exact Hfin|]. split; [exact Hover|].
  exact (C3_variants_differ pow2_rounded 9.9999971761104062e+299
           H0 Hv Hfin Hover).
Defined.

(** C4 fails on the code.  The point [gap_p] passes the containment test
    of the rectangle [gap_b] and of none of the four children [subdivide]
    gives it: [_insert_to_children] returns [False] and leaves the children
    empty, with any call-stack allowance of two frames or more.  So the
    tree that accepted [gap_p] drops it when the next accepted point makes
    the root split. *)
Theorem C4_point_in_no_child (fuel : nat) :
  Rectangle.contains gap_b gap_p = true
  /\ QuadtreeNode.subdivide (Quadtree.root gap_qt1)
     = Ok (gap_split [gap_p] [])
  /\ (forall d,
         Rectangle.contains
           (QuadtreeNode.boundary
              (QuadtreeNode.child d
                 (QuadtreeNode.Undivided (quarter NW gap_b) 1 [])
                 (QuadtreeNode.Undivided (quarter NE gap_b) 1 [])
                 (QuadtreeNode.Undivided (quarter SW gap_b) 1 [])
                 (QuadtreeNode.Undivided (quarter SE gap_b) 1 [])))
           gap_p = false)
  /\ QuadtreeNode._insert_to_children (2 + fuel) (gap_split [gap_p] [])
       gap_p
     = Ok (gap_split [gap_p] [], false)
  /\ Quadtree.insert 1 gap_qt0 gap_p = Ok (gap_qt1, true)
  /\ Quadtree.insert (3 + fuel) gap_qt1 gap_z = Ok (gap_qt2, true)
  /\ stored gap_qt2 = [gap_z].
Proof.
  split; [reflexivity|].
  split; [reflexivity|].
  split; [intros []; reflexivity|].
  split.
  { assert (H : forall n, QuadtreeNode._insert_to_children (2 + n)
                            (gap_split [gap_p] []) gap_p
                          = Ok (gap_split [gap_p] [], false)).
    { induction n as [|n IH]; [vm_compute; reflexivity|].
      apply (proj2 (insert_mono_step (2 + n))), IH. }
    apply H. }
  split; [reflexivity|].
  split; [apply gap_second_insert | reflexivity].
Qed.

(** C5 fails on the code.  On the reachable tree [unit_qt1], the unit
    square with capacity 1 holding its centre, [insert] of the centre again,
    a point of the root boundary, returns [False] with any call-stack
    allowance of 109 frames or more, and the tree it leaves behind stores
    nothing: the copy that was stored is lost as well. *)
Theorem C5_contained_insert_fails :
  Rectangle.contains unit_b unit_p = true
  /\ built unit_b 1 [unit_p] unit_qt1
  /\ stored unit_qt1 = [unit_p]
  /\ exists qt2,
       (forall fuel,
           Quadtree.insert (109 + fuel) unit_qt1 unit_p = Ok (qt2, false))
       /\ stored qt2 = []
       /\ built unit_b 1 [unit_p; unit_p] qt2.
Proof.
  assert (Hb : built unit_b 1 [unit_p] unit_qt1).
  { apply (built_insert unit_b 1 [] unit_qt0 1 unit_p unit_qt1 true).
    - apply built_init. reflexivity.
    - reflexivity. }
  split; [reflexivity|].
  split; [exact Hb|].
  split; [reflexivity|].
  assert (E : match Quadtree.insert 109 unit_qt1 unit_p with
              | Ok (qt2, r) => r = false /\ stored qt2 = []
              | _ => False
              end) by (vm_compute; split; reflexivity).
  destruct (Quadtree.insert 109 unit_qt1 unit_p) as [[qt2 r]| | |] eqn:Hins;
    try contradiction.
  destruct E as [-> Hst].
  exists qt2. split; [|split; [exact Hst|]].
  - intros fuel. apply (handle_insert_mono 109); [lia | exact Hins].
  - exact (built_insert unit_b 1 [unit_p] unit_qt1 109 unit_p qt2 false
             Hb Hins).
Qed.

(** C6, as the code has it.  A point lying exactly on the vertical split
    line of a divided node, the abscissa [x + width / 2] that [subdivide]
    computes, fails the containment test of both children on the lower
    side, NW and SW, which stay as they are: [_insert_to_children] offers
    it to NE and then to SE only and returns what they return; when NE
    contains it and is a leaf with spare capacity, the point is appended
    there and the call returns [True].  Likewise a point on the horizontal
    split line is rejected by NW and NE and offered to SW and then SE. *)
Theorem C6_split_line_goes_to_higher_side (fuel : nat)
    b k ps nw ne sw se (p : Point.t) :
  wf (QuadtreeNode.Divided b k ps nw ne sw se) ->
  ((Point.x p =? Rectangle.x b + Rectangle.width b / 2) = true ->
   Rectangle.contains (QuadtreeNode.boundary nw) p = false
   /\ Rectangle.contains (QuadtreeNode.boundary sw) p = false
   /\ QuadtreeNode._insert_to_children (S (S fuel))
        (QuadtreeNode.Divided b k ps nw ne sw se) p
      = (r <- QuadtreeNode.insert (S fuel) ne p ;;
         if snd r
         then Ok (QuadtreeNode.Divided b k ps nw (fst r) sw se, true)
         else r' <- QuadtreeNode.insert (S fuel) se p ;;
              Ok (QuadtreeNode.Divided b k ps nw (fst r) sw (fst r'),
                  snd r'))
   /\ (Rectangle.contains (QuadtreeNode.boundary ne) p = true ->
       QuadtreeNode.divided ne = false ->
       (Z.of_nat (List.length (QuadtreeNode.points ne))
        < QuadtreeNode.capacity ne)%Z ->
       QuadtreeNode._insert_to_children (S (S fuel))
         (QuadtreeNode.Divided b k ps nw ne sw se) p
       = Ok (QuadtreeNode.Divided b k ps nw
               (QuadtreeNode.set_points ne (QuadtreeNode.points ne ++ [p]))
               sw se, true)))
  /\ ((Point.y p =? Rectangle.y b + Rectangle.height b / 2) = true ->
      Rectangle.contains (QuadtreeNode.boundary nw) p = false
      /\ Rectangle.contains (QuadtreeNode.boundary ne) p = false
      /\ QuadtreeNode._insert_to_children (S (S fuel))
           (QuadtreeNode.Divided b k ps nw ne sw se) p
         = (r <- QuadtreeNode.insert (S fuel) sw p ;;
            if snd r
            then Ok (QuadtreeNode.Divided b k ps nw ne (fst r) se, true)
            else r' <- QuadtreeNode.insert (S fuel) se p ;;
                 Ok (QuadtreeNode.Divided b k ps nw ne (fst r) (fst r'),
                     snd r'))
      /\ (Rectangle.contains (QuadtreeNode.boundary sw) p = true ->
          QuadtreeNode.divided sw = false ->
          (Z.of_nat (List.length (QuadtreeNode.points sw))
           < QuadtreeNode.capacity sw)%Z ->
          QuadtreeNode._insert_to_children (S (S fuel))
            (QuadtreeNode.Divided b k ps nw ne sw se) p
          = Ok (QuadtreeNode.Divided b k ps nw ne
                  (QuadtreeNode.set_points sw
                     (QuadtreeNode.points sw ++ [p]))
                  se, true))).
Proof.
  intros (_ & (B1 & _) & (B2 & _) & (B3 & _) & (B4 & _)).
  split; intros Hline.
  - assert (H1 : Rectangle.contains (QuadtreeNode.boundary nw) p = false)
      by (rewrite B1; apply contains_west_false; auto).
    assert (H3 : Rectangle.contains (QuadtreeNode.boundary sw) p = false)
      by (rewrite B3; apply contains_west_false; auto).
    assert (E : QuadtreeNode._insert_to_children (S (S fuel))
                  (QuadtreeNode.Divided b k ps nw ne sw se) p
                = (r <- QuadtreeNode.insert (S fuel) ne p ;;
                   if snd r
                   then Ok (QuadtreeNode.Divided b k ps nw (fst r) sw se,
                            true)
                   else r' <- QuadtreeNode.insert (S fuel) se p ;;
                        Ok (QuadtreeNode.Divided b k ps nw (fst r) sw
                              (fst r'), snd r'))).
    { rewrite insert_to_children_S.
      rewrite (insert_outside fuel nw p H1). cbn [bind fst snd].
      destruct (QuadtreeNode.insert (S fuel) ne p) as [[ne' []]| | |];
        cbn [bind fst snd]; try reflexivity.
      rewrite (insert_outside fuel sw p H3). reflexivity. }
    repeat split; auto.
    intros Hp Hd Hlen. rewrite E, (insert_spare _ _ _ Hp Hd Hlen).
    reflexivity.
  - assert (H1 : Rectangle.contains (QuadtreeNode.boundary nw) p = false)
      by (rewrite B1; apply contains_north_false; auto).
    assert (H2 : Rectangle.contains (QuadtreeNode.boundary ne) p = false)
      by (rewrite B2; apply contains_north_false; auto).
    assert (E : QuadtreeNode._insert_to_children (S (S fuel))
                  (QuadtreeNode.Divided b k ps nw ne sw se) p
                = (r <- QuadtreeNode.insert (S fuel) sw p ;;
                   if snd r
                   then Ok (QuadtreeNode.Divided b k ps nw ne (fst r) se,
                            true)
                   else r' <- QuadtreeNode.insert (S fuel) se p ;;
                        Ok (QuadtreeNode.Divided b k ps nw ne (fst r)
                              (fst r'), snd r'))).
    { rewrite insert_to_children_S.
      rewrite (insert_outside fuel nw p H1). cbn [bind fst snd].
      rewrite (insert_outside fuel ne p H2). reflexivity. }
    repeat split; auto.
    intros Hp Hd Hlen. rewrite E, (insert_spare _ _ _ Hp Hd Hlen).
    reflexivity.
Qed.

Lemma C6_sample_tree :
  wf sample_root
  /\ (Rectangle.contains (quarter NW sample_b) sample_on_line = false
      /\ Rectangle.contains (quarter SW sample_b) sample_on_line = false
      /\ QuadtreeNode._insert_to_children 2 sample_root sample_on_line
         = Ok (QuadtreeNode.Divided sample_b 1 []
                 (QuadtreeNode.Undivided (quarter NW sample_b) 1 [sample_a])
                 (QuadtreeNode.Undivided (quarter NE sample_b) 1
                    [sample_on_line])
                 (QuadtreeNode.Undivided (quarter SW sample_b) 1 [])
                 (QuadtreeNode.Undivided (quarter SE sample_b) 1
                    [sample_z]), true))
  /\ (Rectangle.contains (quarter NW sample_b) sample_south = false
      /\ Rectangle.contains (quarter NE sample_b) sample_south = false
      /\ QuadtreeNode._insert_to_children 2 sample_root sample_south
         = Ok (QuadtreeNode.Divided sample_b 1 []
                 (QuadtreeNode.Undivided (quarter NW sample_b) 1 [sample_a])
                 (QuadtreeNode.Undivided (quarter NE sample_b) 1 [])
                 (QuadtreeNode.Undivided (quarter SW sample_b) 1
                    [sample_south])
                 (QuadtreeNode.Undivided (quarter SE sample_b) 1
                    [sample_z]), true)).
Proof.
  split; [exact sample_wf|].
  pose proof (C6_split_line_goes_to_higher_side 0 sample_b 1 []
                (QuadtreeNode.Undivided (quarter NW sample_b) 1 [sample_a])
                (QuadtreeNode.Undivided (quarter NE sample_b) 1 [])
                (QuadtreeNode.Undivided (quarter SW sample_b) 1 [])
                (QuadtreeNode.Undivided (quarter SE sample_b) 1 [sample_z])
                sample_on_line sample_wf) as [HV _].
  pose proof (C6_split_line_goes_to_higher_side 0 sample_b 1 []
                (QuadtreeNode.Undivided (quarter NW sample_b) 1 [sample_a])
                (QuadtreeNode.Undivided (quarter NE sample_b) 1 [])
                (QuadtreeNode.Undivided (quarter SW sample_b) 1 [])
                (QuadtreeNode.Undivided (quarter SE sample_b) 1 [sample_z])
                sample_south sample_wf) as [_ HH].
  destruct (HV eq_refl) as (V1 & V2 & _ & V4).
  destruct (HH eq_refl) as (H1 & H2 & _ & H4).
  split.
  - split; [exact V1|]. split; [exact V2|].
    apply V4; [reflexivity | reflexivity | cbn; lia].
  - split; [exact H1|]. split; [exact H2|].
    apply H4; [reflexivity | reflexivity | cbn; lia].
Defined.

(** C6 fails on the code: in the small tree the point [(1, 0.5)], on the
    vertical split line of the root, is placed in the north-east child, on
    the higher side of the line, and not in the north-west one. *)
Lemma C6_split_line_point_goes_east :
  (Point.x sample_on_line
   =? Rectangle.x sample_b + Rectangle.width sample_b / 2) = true
  /\ stored sample_qt = [sample_a; sample_z]
  /\ Quadtree.insert 3 sample_qt sample_on_line
     = Ok (Quadtree.mk sample_b
             (QuadtreeNode.Divided sample_b 1 []
                (QuadtreeNode.Undivided (quarter NW sample_b) 1 [sample_a])
                (QuadtreeNode.Undivided (quarter NE sample_b) 1
                   [sample_on_line])
                (QuadtreeNode.Undivided (quarter SW sample_b) 1 [])
                (QuadtreeNode.Undivided (quarter SE sample_b) 1 [sample_z])),
           true).
Proof. repeat split. Qed.

(** C7. For every tree state and every point outside the root boundary,
    [insert] returns [False] and leaves the tree unchanged, in particular
    the number of stored points; it does so with any positive call-stack
    allowance. *)
Theorem C7_insert_outside_rejected (fuel : nat) (qt : Quadtree.t)
    (p : Point.t) :
  Rectangle.contains (QuadtreeNode.boundary (Quadtree.root qt)) p = false ->
  Quadtree.insert (S fuel) qt p = Ok (qt, false)
  /\ forall qt' r,
       Quadtree.insert (S fuel) qt p = Ok (qt', r) ->
       r = false /\ qt' = qt
       /\ List.length (stored qt') = List.length (stored qt).
Proof.
  intros H.
  assert (E : Quadtree.insert (S fuel) qt p = Ok (qt, false)).
  { unfold Quadtree.insert. rewrite (insert_outside _ _ _ H).
    destruct qt; reflexivity. }
  split; [exact E|].
  intros qt' r E'. rewrite E in E'. injection E' as <- <-. auto.
Qed.

Lemma C7_sample_tree :
  Rectangle.contains (QuadtreeNode.boundary (Quadtree.root sample_qt))
    sample_out = false
  /\ Quadtree.insert 1 sample_qt sample_out = Ok (sample_qt, false)
  /\ forall qt' r,
       Quadtree.insert 1 sample_qt sample_out = Ok (qt', r) ->
       r = false /\ qt' = sample_qt
       /\ List.length (stored qt') = List.length (stored sample_qt).
Proof.
  split; [reflexivity|].
  exact (C7_insert_outside_rejected 0 sample_qt sample_out eq_refl).
Defined.

(** C8. After every sequence of insertions into a freshly constructed
    tree of non-negative capacity, every node is either a leaf holding at
    most [capacity] points or a divided node holding none. *)
Theorem C8_capacity_invariant (b : Rectangle.t) (c : Z)
    (l : list Point.t) (qt : Quadtree.t) :
  (0 <= c)%Z ->
  built b c l qt ->
  Forall node_ok (nodes (Quadtree.root qt))
  /\ Forall (fun n => QuadtreeNode.capacity n = c) (nodes (Quadtree.root qt)).
Proof.
  intros Hc Hb.
  destruct (built_invariant _ _ _ _ Hb) as (_ & _ & _ & _ & _ & Cap).
  specialize (Cap Hc).
  split; [eapply cap_ok_nodes | apply cap_ok_capacity]; exact Cap.
Qed.

Lemma C8_sample_tree :
  (0 <= 1)%Z
  /\ built sample_b 1 sample_points sample_qt
  /\ Forall node_ok (nodes (Quadtree.root sample_qt))
  /\ Forall (fun n => QuadtreeNode.capacity n = 1%Z)
       (nodes (Quadtree.root sample_qt)).
Proof.
  split; [lia|].
  split; [exact sample_built|].
  exact (C8_capacity_invariant sample_b 1 sample_points sample_qt
           (Z.le_0_1) sample_built).
Defined.

(** C9, as the code has it.  Construction checks nothing: for every
    rectangle and capacity, valid or not, it returns a tree whose root is
    an empty leaf with that boundary and capacity. *)
Theorem C9_construct_never_fails (x y width height : float)
    (capacity : Z) :
  construct x y width height capacity =
  Ok (Quadtree.mk (Rectangle.mk x y width height)
        (QuadtreeNode.Undivided (Rectangle.mk x y width height)
           capacity [])).
Proof. reflexivity. Qed.

(** C9 fails on the code: a rectangle of negative width and zero height
    with capacity 0 yields a tree, not an error. *)
Lemma C9_invalid_input_accepted :
  (-1 <=? 0) = true /\ (0 <=? 0) = true /\ (0 <= 0)%Z
  /\ construct 0 0 (-1) 0 0 =
     Ok (Quadtree.mk (Rectangle.mk 0 0 (-1) 0)
           (QuadtreeNode.Undivided (Rectangle.mk 0 0 (-1) 0) 0 [])).
Proof. repeat split. discriminate. Qed.

(** C10. Searching is read-only: [QuadtreeNode.query],
    [QuadtreeNode._find_nearest], [Quadtree.query] and
    [Quadtree.find_nearest] return the tree exactly as they received it,
    whatever the tree, the query point and the accumulator, and whether
    they return or raise. *)
Theorem C10_search_read_only (pow2 : float -> result float)
    (sqrt : float -> float) (qt : Quadtree.t)
    (t : QuadtreeNode.t) (q : Point.t) (best : BestFound) :
  fst (QuadtreeNode.query pow2 t q best) = t
  /\ fst (QuadtreeNode._find_nearest pow2 t q best) = t
  /\ fst (Quadtree.query pow2 qt q best) = qt
  /\ fst (Quadtree.find_nearest pow2 sqrt qt q) = qt.
Proof.
  repeat split.
  - apply query_frame.
  - apply find_nearest_frame.
  - unfold Quadtree.query. cbn [fst]. rewrite query_frame.
    destruct qt; reflexivity.
  - unfold Quadtree.find_nearest. cbn [fst]. rewrite find_nearest_frame.
    destruct qt; reflexivity.
Qed.
(** * Further properties *)

(** X3.  A tree whose boundary has an empty range of abscissas or of
    ordinates, as the containment test computes it ([x < x + width] or
    [y < y + height] false, which is the case of a width or height that is
    zero, negative or NaN), accepts nothing: it stays empty, every [insert]
    returns [False] and leaves it as it was, and a search finds no
    point. *)
Theorem degenerate_tree_rejects_all (pow2 : float -> result float)
    (sqrt : float -> float)
    (b : Rectangle.t) (c : Z) (l : list Point.t) (qt : Quadtree.t) :
  (Rectangle.x b <? Rectangle.x b + Rectangle.width b) = false
  \/ (Rectangle.y b <? Rectangle.y b + Rectangle.height b) = false ->
  built b c l qt ->
  stored qt = []
  /\ (forall fuel p, Quadtree.insert (S fuel) qt p = Ok (qt, false))
  /\ (forall q, snd (Quadtree.find_nearest pow2 sqrt qt q)
                = Ok (None, sqrt infinity)).
Proof.
  intros Hdeg Hb.
  assert (Hout : forall p, Rectangle.contains b p = false)
    by (intros p; apply contains_degenerate, Hdeg).
  rewrite (built_degenerate _ _ _ _ Hout Hb).
  split; [reflexivity|]. split.
  - intros fuel p. unfold Quadtree.insert.
    rewrite insert_outside by apply Hout. reflexivity.
  - intros q. unfold Quadtree.find_nearest.
    cbn [Quadtree.root snd]. rewrite find_nearest_eq.
    cbn [best_dist_sq]. rewrite ltb_infinity. reflexivity.
Qed.

Lemma degenerate_tree_sample :
  let b := Rectangle.mk 0 0 (-1) 0 in
  let qt := Quadtree.mk b (QuadtreeNode.Undivided b 4 []) in
  ((Rectangle.x b <? Rectangle.x b + Rectangle.width b) = false
   \/ (Rectangle.y b <? Rectangle.y b + Rectangle.height b) = false)
  /\ built b 4 [] qt
  /\ stored qt = []
  /\ (forall fuel p, Quadtree.insert (S fuel) qt p = Ok (qt, false))
  /\ (forall q, snd (Quadtree.find_nearest pow2_rounded PrimFloat.sqrt qt q)
                = Ok (None, PrimFloat.sqrt infinity)).
Proof.
  cbv zeta.
  assert (D : (Rectangle.x (Rectangle.mk 0 0 (-1) 0)
               <? Rectangle.x (Rectangle.mk 0 0 (-1) 0)
                  + Rectangle.width (Rectangle.mk 0 0 (-1) 0)) = false
              \/ (Rectangle.y (Rectangle.mk 0 0 (-1) 0)
                  <? Rectangle.y (Rectangle.mk 0 0 (-1) 0)
                     + Rectangle.height (Rectangle.mk 0 0 (-1) 0)) = false)
    by (left; reflexivity).
  assert (Hb : built (Rectangle.mk 0 0 (-1) 0) 4 []
                 (Quadtree.mk (Rectangle.mk 0 0 (-1) 0)
                    (QuadtreeNode.Undivided (Rectangle.mk 0 0 (-1) 0) 4 [])))
    by (apply built_init; reflexivity).
  split; [exact D|]. split; [exact Hb|].
  exact (degenerate_tree_rejects_all pow2_rounded PrimFloat.sqrt
           (Rectangle.mk 0 0 (-1) 0) 4 []
           (Quadtree.mk (Rectangle.mk 0 0 (-1) 0)
              (QuadtreeNode.Undivided (Rectangle.mk 0 0 (-1) 0) 4 []))
           D Hb).
Defined.

(** X4.  [subdivide] keeps the boundary, the capacity and the resident
    points of the node and gives it four empty leaves of the same capacity
    with the four computed quarters as boundaries; no point passes the
    containment test of two of them. *)
Theorem subdivide_children (self : QuadtreeNode.t) :
  QuadtreeNode.subdivide self
  = Ok (QuadtreeNode.Divided (QuadtreeNode.boundary self)
          (QuadtreeNode.capacity self) (QuadtreeNode.points self)
          (QuadtreeNode.Undivided
             (quarter NW (QuadtreeNode.boundary self))
             (QuadtreeNode.capacity self) [])
          (QuadtreeNode.Undivided
             (quarter NE (QuadtreeNode.boundary self))
             (QuadtreeNode.capacity self) [])
          (QuadtreeNode.Undivided
             (quarter SW (QuadtreeNode.boundary self))
             (QuadtreeNode.capacity self) [])
          (QuadtreeNode.Undivided
             (quarter SE (QuadtreeNode.boundary self))
             (QuadtreeNode.capacity self) []))
  /\ forall p d d',
       Rectangle.contains (quarter d (QuadtreeNode.boundary self)) p = true ->
       Rectangle.contains (quarter d' (QuadtreeNode.boundary self)) p = true ->
       d = d'.
Proof.
  split; [reflexivity|]. intros p d d'. apply quarters_disjoint.
Qed.

(** X5.  The contract of [insert] on any node.  With any positive
    call-stack allowance, a point that fails the containment test of the
    node is rejected and the node left as it was, and a point that passes
    it is appended to a leaf with spare capacity.  The call never raises
    [AttributeError] or [OverflowError].  When it returns, the boundary
    and the capacity of the node are unchanged; the stored points are the
    old ones, with the new point if the call returned [True], less those
    the call lost: nothing else is added and nothing is doubled; and a
    point is accepted only if it passes the containment test and is then
    stored. *)
Theorem insert_contract (fuel : nat) (t : QuadtreeNode.t) (p : Point.t) :
  (Rectangle.contains (QuadtreeNode.boundary t) p = false ->
   QuadtreeNode.insert (S fuel) t p = Ok (t, false))
  /\ (Rectangle.contains (QuadtreeNode.boundary t) p = true ->
      QuadtreeNode.divided t = false ->
      (Z.of_nat (List.length (QuadtreeNode.points t))
       < QuadtreeNode.capacity t)%Z ->
      QuadtreeNode.insert (S fuel) t p
      = Ok (QuadtreeNode.set_points t (QuadtreeNode.points t ++ [p]), true))
  /\ QuadtreeNode.insert fuel t p <> AttributeError
  /\ QuadtreeNode.insert fuel t p <> OverflowError
  /\ forall t' r,
       QuadtreeNode.insert fuel t p = Ok (t', r) ->
       QuadtreeNode.boundary t' = QuadtreeNode.boundary t
       /\ QuadtreeNode.capacity t' = QuadtreeNode.capacity t
       /\ gains p r (all_points t) (all_points t')
       /\ (r = true ->
           In p (all_points t')
           /\ Rectangle.contains (QuadtreeNode.boundary t) p = true)
       /\ (List.length (all_points t')
           <= List.length (all_points t) + (if r then 1 else 0))%nat.
Proof.
  split; [apply insert_outside|].
  split; [apply insert_spare|].
  split; [apply insert_returns_or_exhausts|].
  split; [apply insert_returns_or_exhausts|].
  intros t' r H.
  pose proof (proj1 (insert_invariant 0 fuel) t p) as Hp.
  rewrite H in Hp. destruct Hp as (B & K & _ & G & I & _).
  repeat split; auto; try (apply I; assumption).
  apply (gains_length _ _ _ _ G).
Qed.

Lemma insert_contract_sample :
  Rectangle.contains (QuadtreeNode.boundary sample_root) sample_out = false
  /\ QuadtreeNode.insert 1 sample_root sample_out = Ok (sample_root, false)
  /\ Rectangle.contains (quarter NE sample_b) sample_on_line = true
  /\ QuadtreeNode.insert 1
       (QuadtreeNode.Undivided (quarter NE sample_b) 1 []) sample_on_line
     = Ok (QuadtreeNode.Undivided (quarter NE sample_b) 1 [sample_on_line],
           true).
Proof.
  split; [reflexivity|].
  split; [exact (proj1 (insert_contract 0 sample_root sample_out) eq_refl)|].
  split; [reflexivity|].
  refine (proj1 (proj2 (insert_contract 0
                          (QuadtreeNode.Undivided (quarter NE sample_b) 1 [])
                          sample_on_line)) eq_refl eq_refl _).
  cbn. lia.
Defined.

(** X6.  In every reachable tree the handle and the root keep the
    boundary of the construction; every point stored in the subtree of a
    node passes the containment test of that node; the children of every
    divided node have the four quarters [subdivide] computes as
    boundaries; and the stored points are among the inserted points that
    pass the containment test of the root, none doubled. *)
Theorem reachable_geometry (b : Rectangle.t) (c : Z) (l : list Point.t)
    (qt : Quadtree.t) :
  built b c l qt ->
  Quadtree.boundary qt = b
  /\ QuadtreeNode.boundary (Quadtree.root qt) = b
  /\ Forall node_geometry (nodes (Quadtree.root qt))
  /\ (exists lost,
         Permutation (stored qt ++ lost) (filter (Rectangle.contains b) l)).
Proof.
  intros Hb.
  destruct (built_invariant _ _ _ _ Hb) as (B1 & B2 & _ & W & P & _).
  repeat split; auto.
  apply Forall_forall. intros n Hn.
  apply wf_node_geometry, (wf_nodes _ _ W Hn).
Qed.

Lemma reachable_geometry_sample :
  built sample_b 1 sample_points sample_qt
  /\ Quadtree.boundary sample_qt = sample_b
  /\ QuadtreeNode.boundary (Quadtree.root sample_qt) = sample_b
  /\ Forall node_geometry (nodes (Quadtree.root sample_qt))
  /\ (exists lost,
         Permutation (stored sample_qt ++ lost)
           (filter (Rectangle.contains sample_b) sample_points)).
Proof.
  split; [exact sample_built|].
  exact (reachable_geometry sample_b 1 sample_points sample_qt sample_built).
Defined.

(** X7.  What either search leaves in the accumulator, whether it returns
    or raises: the accumulator it was given, or a point stored in the
    subtree with its squared distance as the code computes it, strictly
    smaller than the distance it was given.  A search raises only what the
    distance to a stored point raises, and returns when [** 2] never
    raises. *)
Theorem search_sound (pow2 : float -> result float) (t : QuadtreeNode.t)
    (q : Point.t) (best : BestFound) :
  (refines pow2 q (all_points t) best
     (fst (snd (QuadtreeNode.query pow2 t q best)))
   /\ raised pow2 q (all_points t)
        (snd (snd (QuadtreeNode.query pow2 t q best))))
  /\ (refines pow2 q (all_points t) best
        (fst (snd (QuadtreeNode._find_nearest pow2 t q best)))
      /\ raised pow2 q (all_points t)
           (snd (snd (QuadtreeNode._find_nearest pow2 t q best))))
  /\ ((forall x, exists v, pow2 x = Ok v) ->
      snd (snd (QuadtreeNode.query pow2 t q best)) = Ok tt
      /\ snd (snd (QuadtreeNode._find_nearest pow2 t q best)) = Ok tt).
Proof.
  split; [apply query_sound|]. split; [apply find_nearest_sound|].
  intros Htot.
  assert (H : forall l e, raised pow2 q l e -> e = Ok tt).
  { intros l e [-> | (Hne & p & _ & Hs)]; [reflexivity|].
    exfalso. apply Hne. rewrite <- Hs. unfold dist_sq.
    destruct (Htot (Point.x p - Point.x q)) as [a ->].
    destruct (Htot (Point.y p - Point.y q)) as [c ->]. reflexivity. }
  split; eapply H; [apply query_sound | apply find_nearest_sound].
Qed.

Lemma search_sound_sample :
  (forall x, exists v, (fun y => Ok (y * y)) x = Ok v)
  /\ snd (snd (QuadtreeNode.query (fun y => Ok (y * y)) sample_root
                 sample_out no_best)) = Ok tt
  /\ snd (snd (QuadtreeNode._find_nearest (fun y => Ok (y * y)) sample_root
                 sample_out no_best)) = Ok tt.
Proof.
  assert (H : forall x : float, exists v, (fun y => Ok (y * y)) x = Ok v)
    by (intros x; exists (x * x); reflexivity).
  split; [exact H|].
  exact (proj2 (proj2 (search_sound (fun y => Ok (y * y)) sample_root
                         sample_out no_best)) H).
Defined.

(** X11.  The oracle returns no point and [infinity] when no point of the
    list is closer than [infinity] as computed; otherwise a point of the
    list with its computed squared distance, than which no point of the
    list is strictly closer; it raises what the distance to a point of the
    list raises. *)
Theorem brute_force_minimum (pow2 : float -> result float) (q : Point.t)
    (l : list Point.t) :
  match find_closest_brute_force pow2 q l with
  | Ok (None, m) =>
      m = infinity
      /\ forall p, In p l ->
           exists d, dist_sq pow2 p q = Ok d /\ (d <? infinity) = false
  | Ok (Some p, m) =>
      In p l /\ dist_sq pow2 p q = Ok m /\ (m <? infinity) = true
      /\ forall p', In p' l ->
           exists d', dist_sq pow2 p' q = Ok d' /\ (d' <? m) = false
  | e => exists p, In p l /\ status (dist_sq pow2 p q) = status e
  end.
Proof.
  pose proof (brute_force_loop_post pow2 q l [] None infinity) as H.
  cbn [app] in H. unfold find_closest_brute_force.
  assert (H0 : oracle_inv pow2 q [] None infinity)
    by (split; [reflexivity | intros p' []]).
  specialize (H H0). unfold oracle_post, oracle_inv in H.
  destruct (brute_force_loop pow2 q l None infinity) as [[[p|] m]| | |];
    try exact H.
  - tauto.
  - destruct H as [-> H]. split; [reflexivity | exact H].
Qed.

(** X13.  A call of [insert] that returns within some call-stack allowance
    returns the same tree and boolean within any larger one, whatever the
    tree; so does the set-up loop. *)
Theorem allowance_monotone (fuel fuel' : nat) (qt : Quadtree.t) :
  (fuel <= fuel')%nat ->
  (forall p r,
      Quadtree.insert fuel qt p = Ok r -> Quadtree.insert fuel' qt p = Ok r)
  /\ (forall l qt',
         populate fuel qt l = Ok qt' -> populate fuel' qt l = Ok qt').
Proof.
  intros Hle. split.
  - intros p r. apply handle_insert_mono, Hle.
  - intros l qt'. apply populate_mono, Hle.
Qed.

Lemma allowance_monotone_sample :
  (5 <= 8)%nat
  /\ (forall p r,
         Quadtree.insert 5 sample_qt p = Ok r ->
         Quadtree.insert 8 sample_qt p = Ok r)
  /\ (forall l qt',
         populate 5 sample_qt l = Ok qt' -> populate 8 sample_qt l = Ok qt').
Proof.
  split; [lia|].
  apply (allowance_monotone 5 8 sample_qt). lia.
Defined.

(** X15.  A reachable tree of capacity zero or less stores nothing, and no
    [insert] into it returns [True]: whatever the point and the call-stack
    allowance, a call that returns gives [False] and leaves a tree that
    stores nothing. *)
Theorem nonpositive_capacity_stores_nothing (b : Rectangle.t) (c : Z)
    (l : list Point.t) (qt : Quadtree.t) :
  (c <= 0)%Z ->
  built b c l qt ->
  stored qt = []
  /\ forall fuel p qt' r,
       Quadtree.insert fuel qt p = Ok (qt', r) ->
       r = false /\ stored qt' = [].
Proof.
  intros Hc Hb. split; [exact (proj2 (nonpositive_built _ _ _ _ Hc Hb))|].
  intros fuel p qt' r Hins.
  pose proof (built_insert b c l qt fuel p qt' r Hb Hins) as Hb'.
  split; [|exact (proj2 (nonpositive_built _ _ _ _ Hc Hb'))].
  destruct (nonpositive_built _ _ _ _ Hc Hb) as [Hcap _].
  unfold Quadtree.insert in Hins.
  apply bind_Ok in Hins. destruct Hins as ([t' r'] & Hins & Hret).
  cbn [fst snd] in Hret. injection Hret as _ <-.
  exact (proj1 (proj1 (no_accept c fuel Hc) _ _ _ _ Hcap Hins)).
Qed.

Lemma nonpositive_capacity_sample :
  (0 <= 0)%Z
  /\ Rectangle.contains sample_b sample_a = true
  /\ built sample_b 0 [sample_a] zero_qt1
  /\ QuadtreeNode.divided (Quadtree.root zero_qt1) = true
  /\ stored zero_qt1 = []
  /\ forall fuel p qt' r,
       Quadtree.insert fuel zero_qt1 p = Ok (qt', r) ->
       r = false /\ stored qt' = [].
Proof.
  assert (Hb : built sample_b 0 [sample_a] zero_qt1).
  { apply (built_insert sample_b 0 [] zero_qt0 200 sample_a zero_qt1 false).
    - apply built_init. reflexivity.
    - vm_compute. reflexivity. }
  split; [lia|]. split; [reflexivity|]. split; [exact Hb|].
  split; [reflexivity|].
  exact (nonpositive_capacity_stores_nothing sample_b 0 [sample_a] zero_qt1
           (Z.le_refl 0) Hb).
Defined.

(** X17.  [insert] never calls a method on a missing child: on any tree,
    reachable or not, it returns or exhausts the call stack, and never
    raises [AttributeError]; nor does the set-up loop. *)
Theorem insert_never_attribute_error (fuel : nat) (qt : Quadtree.t) :
  (forall p, QuadtreeNode.insert fuel (Quadtree.root qt) p <> AttributeError)
  /\ (forall p, Quadtree.insert fuel qt p <> AttributeError)
  /\ (forall l, populate fuel qt l <> AttributeError).
Proof.
  assert (Hi : forall t p, QuadtreeNode.insert fuel t p <> AttributeError)
    by (intros t p; apply insert_returns_or_exhausts).
  assert (Hq : forall qt0 p, Quadtree.insert fuel qt0 p <> AttributeError).
  { intros qt0 p. unfold Quadtree.insert.
    pose proof (Hi (Quadtree.root qt0) p).
    destruct (QuadtreeNode.insert fuel (Quadtree.root qt0) p);
      [discriminate | discriminate | contradiction | discriminate]. }
  repeat split; [intros p; apply Hi | intros p; apply Hq |].
  intros l. unfold populate. revert qt.
  induction l as [|a l IH]; intros qt; [discriminate|].
  cbn [for_each]. pose proof (Hq qt a).
  destruct (Quadtree.insert fuel qt a) as [[qt1 r]| | |];
    cbn [bind fst]; [apply IH | discriminate | contradiction | discriminate].
Qed.



(** X19.  What [Quadtree.find_nearest] gives back: no point and the root
    of [infinity] when it found nothing closer than [infinity]; or a stored
    point with the root of its squared distance as the code computes it;
    or the exception that the distance to a stored point raises. *)
Theorem find_nearest_result (pow2 : float -> result float)
    (sqrt : float -> float) (qt : Quadtree.t) (q : Point.t) :
  match snd (Quadtree.find_nearest pow2 sqrt qt q) with
  | Ok (None, d) => d = sqrt infinity
  | Ok (Some p, d) =>
      In p (stored qt)
      /\ exists d0,
           dist_sq pow2 p q = Ok d0
           /\ (d0 <? infinity) = true
           /\ d = sqrt d0
  | e => exists p, In p (stored qt) /\ status (dist_sq pow2 p q) = status e
  end.
Proof.
  unfold Quadtree.find_nearest, stored. cbn [snd]. fold no_best.
  destruct (find_nearest_sound pow2 q (Quadtree.root qt) no_best) as [R E].
  destruct E as [-> | (Hne & p & Hin & Hs)].
  - cbn [bind].
    destruct R as [-> | (p & d & Hin & Hd & -> & Hlt)]; cbn; [reflexivity|].
    split; [exact Hin|]. exists d. auto.
  - rewrite <- Hs in *.
    destruct (dist_sq pow2 p q) as [d| | |] eqn:Hd; cbn [status bind] in *;
      try (exists p; split; [exact Hin | rewrite Hd; reflexivity]).
    contradiction Hne. reflexivity.
Qed.
